(** * Travel recommendation use case: query parsing and orchestration

    A shallow embedding of [RecommendationUseCase] (getRecommendations,
    parseQuery, generateDefaultSummary), of [AmapService] (searchPoi,
    getCityAdcode, getWeather, getWeatherForecast) and of
    [LlmService.generateRecommendation], together with the fragment of the
    ECMAScript string and regular-expression semantics these functions use.

    Strings are sequences of UTF-16 code units, as in the language the
    program is written in: [length], character classes and [includes] all
    count code units. *)

From Stdlib Require Import NArith String Ascii.
From stdpp Require Import base list gmap.

Local Open Scope N_scope.

(** ** ECMAScript strings *)

Module JS.

Definition jsstring := list N.

(** Source text is UTF-8; a literal is decoded to its UTF-16 code units. *)
Fixpoint bytes_of (s : string) : list N :=
  match s with
  | EmptyString => []
  | String a t => N_of_ascii a :: bytes_of t
  end.

Definition cont (b : N) : N := N.land b 63.

Definition surrogates (cp : N) : list N :=
  if cp <? 65536 then [cp]
  else let v := cp - 65536 in
       [55296 + N.shiftr v 10; 56320 + N.land v 1023].

Fixpoint utf16_of_utf8 (bs : list N) : list N :=
  match bs with
  | [] => []
  | b0 :: t0 =>
    if b0 <? 128 then b0 :: utf16_of_utf8 t0
    else if b0 <? 224 then
      match t0 with
      | b1 :: t1 => (N.shiftl (N.land b0 31) 6 + cont b1) :: utf16_of_utf8 t1
      | _ => []
      end
    else if b0 <? 240 then
      match t0 with
      | b1 :: b2 :: t2 =>
        (N.shiftl (N.land b0 15) 12 + N.shiftl (cont b1) 6 + cont b2)
          :: utf16_of_utf8 t2
      | _ => []
      end
    else
      match t0 with
      | b1 :: b2 :: b3 :: t3 =>
        surrogates (N.shiftl (N.land b0 7) 18 + N.shiftl (cont b1) 12
                    + N.shiftl (cont b2) 6 + cont b3) ++ utf16_of_utf8 t3
      | _ => []
      end
  end.

Definition lit (s : string) : jsstring := utf16_of_utf8 (bytes_of s).

Arguments lit : simpl never.

Definition ch (a : ascii) : N := N_of_ascii a.

(** [a === b] on strings. *)
Fixpoint str_eqb (a b : jsstring) : bool :=
  match a, b with
  | [], [] => true
  | x :: a', y :: b' => (x =? y) && str_eqb a' b'
  | _, _ => false
  end.

Fixpoint starts_with (s pat : jsstring) : bool :=
  match pat, s with
  | [], _ => true
  | p :: pat', c :: s' => (c =? p) && starts_with s' pat'
  | _ :: _, [] => false
  end.

(** [s.includes(pat)] *)
Fixpoint includes (s pat : jsstring) : bool :=
  starts_with s pat ||
  match s with
  | [] => false
  | _ :: s' => includes s' pat
  end.

(** WhiteSpace and LineTerminator code units: what [trim] strips and what
    the class escape [\s] matches. *)
Definition is_space (c : N) : bool :=
  ((9 <=? c) && (c <=? 13)) || (c =? 32) || (c =? 160) || (c =? 5760)
  || ((8192 <=? c) && (c <=? 8202)) || (c =? 8232) || (c =? 8233)
  || (c =? 8239) || (c =? 8287) || (c =? 12288) || (c =? 65279).

Fixpoint trimStart (s : jsstring) : jsstring :=
  match s with
  | c :: s' => if is_space c then trimStart s' else s
  | [] => []
  end.

Definition trim (s : jsstring) : jsstring :=
  rev (trimStart (rev (trimStart s))).

(** Truthiness of an optional string: [undefined] and [''] are falsy. *)
Definition truthy (o : option jsstring) : bool :=
  match o with
  | Some (_ :: _) => true
  | _ => false
  end.

(** [a || b] where [b] is a string. *)
Definition or_str (a : option jsstring) (b : jsstring) : jsstring :=
  match a with
  | Some (c :: s) => c :: s
  | _ => b
  end.

(** [a || b] where both may be undefined. *)
Definition or_opt (a b : option jsstring) : option jsstring :=
  if truthy a then a else b.

(** Decimal rendering of a non-negative integer, as in a template string. *)
Fixpoint digits_of (fuel : nat) (n : N) (acc : jsstring) : jsstring :=
  match fuel with
  | O => acc
  | S f =>
    let acc' := (48 + n mod 10) :: acc in
    if n <? 10 then acc' else digits_of f (n / 10) acc'
  end.

Definition nat_to_string (n : nat) : jsstring :=
  digits_of (S n) (N.of_nat n) [].

(** [parts.join(sep)] *)
Fixpoint join (sep : jsstring) (parts : list jsstring) : jsstring :=
  match parts with
  | [] => []
  | [p] => p
  | p :: rest => p ++ sep ++ join sep rest
  end.

End JS.

Import JS.

(** Values thrown and caught: an [Error] (or [HttpError]) carries a message;
    the numeric code of an [HttpError] is only ever logged. *)
Record JsError := mkError { message : jsstring }.

(** ** Regular expressions

    Patterns without flags, in the web-compatibility grammar.  The matcher
    follows the continuation semantics of the language definition:
    alternatives in order, greedy and lazy quantifiers, an iteration that
    consumes nothing ends a loop, captures reset on each iteration. *)

Module RegExp.

Inductive esc := EDigit | EWord | ESpace.

Inductive citem :=
| CRange (lo hi : N)
| CEsc (neg : bool) (e : esc).

Inductive node :=
| Empty
| Chr (c : N)
| Dot
| CharSet (neg : bool) (items : list citem)
| Cat (a b : node)
| Alt (a b : node)
| Group (i : nat) (a : node)
| Repeat (min : nat) (max : option nat) (greedy : bool) (a : node)
| Bol
| Eol
| WordBoundary (neg : bool)
| Lookahead (neg : bool) (a : node).

Definition is_digit (c : N) : bool := (48 <=? c) && (c <=? 57).

Definition is_word (c : N) : bool :=
  is_digit c || ((65 <=? c) && (c <=? 90)) || ((97 <=? c) && (c <=? 122))
  || (c =? 95).

Definition is_line_terminator (c : N) : bool :=
  (c =? 10) || (c =? 13) || (c =? 8232) || (c =? 8233).

Definition esc_matches (e : esc) (c : N) : bool :=
  match e with
  | EDigit => is_digit c
  | EWord => is_word c
  | ESpace => is_space c
  end.

Definition citem_matches (it : citem) (c : N) : bool :=
  match it with
  | CRange lo hi => (lo <=? c) && (c <=? hi)
  | CEsc neg e => xorb neg (esc_matches e c)
  end.

Definition set_matches (neg : bool) (items : list citem) (c : N) : bool :=
  xorb neg (existsb (fun it => citem_matches it c) items).

(** Matcher state: the input split at the current index (the part already
    consumed is kept reversed) and the captures recorded so far. *)
Record mstate := mkState {
  before : list N;
  after : list N;
  caps : list (nat * option jsstring)
}.

Definition cont_t := mstate -> option mstate.

Definition step_if (p : N -> bool) (x : mstate) (c : cont_t) : option mstate :=
  match after x with
  | a :: t => if p a then c (mkState (a :: before x) t (caps x)) else None
  | [] => None
  end.

Definition consumed_between (x y : mstate) : jsstring :=
  rev (take (length (before y) - length (before x))%nat (before y)).

Definition set_cap (i : nat) (v : option jsstring) (x : mstate) : mstate :=
  mkState (before x) (after x) ((i, v) :: caps x).

Fixpoint get_cap (i : nat) (cs : list (nat * option jsstring)) : option jsstring :=
  match cs with
  | [] => None
  | (j, v) :: cs' => if Nat.eqb i j then v else get_cap i cs'
  end.

Fixpoint groups_of (r : node) : list nat :=
  match r with
  | Cat a b | Alt a b => groups_of a ++ groups_of b
  | Group i a => i :: groups_of a
  | Repeat _ _ _ a | Lookahead _ a => groups_of a
  | _ => []
  end.

Definition clear_caps (gs : list nat) (x : mstate) : mstate :=
  mkState (before x) (after x) (map (fun g => (g, None)) gs ++ caps x).

Definition at_word_boundary (x : mstate) : bool :=
  let a := match before x with c :: _ => is_word c | [] => false end in
  let b := match after x with c :: _ => is_word c | [] => false end in
  xorb a b.

Definition max_is_zero (max : option nat) : bool :=
  match max with Some O => true | _ => false end.

Definition max_pred (max : option nat) : option nat :=
  match max with Some n => Some (pred n) | None => None end.

Definition first_of (a b : option mstate) : option mstate :=
  match a with Some z => Some z | None => b end.

Fixpoint run (r : node) (x : mstate) (c : cont_t) {struct r} : option mstate :=
  match r with
  | Empty => c x
  | Chr k => step_if (N.eqb k) x c
  | Dot => step_if (fun a => negb (is_line_terminator a)) x c
  | CharSet neg items => step_if (set_matches neg items) x c
  | Cat a b => run a x (fun y => run b y c)
  | Alt a b =>
    match run a x c with
    | Some z => Some z
    | None => run b x c
    end
  | Group i a =>
    run a x (fun y => c (set_cap i (Some (consumed_between x y)) y))
  | Repeat min max greedy a =>
    let gs := groups_of a in
    (fix rep (fuel : nat) (min : nat) (max : option nat) (x : mstate)
         {struct fuel} : option mstate :=
       match fuel with
       | O => None
       | S fuel' =>
         if max_is_zero max then c x
         else
           let d := fun y =>
             if Nat.eqb min 0 && Nat.eqb (length (after y)) (length (after x))
             then None
             else rep fuel' (pred min) (max_pred max) y in
           let xr := clear_caps gs x in
           if negb (Nat.eqb min 0) then run a xr d
           else if greedy then
             match run a xr d with
             | Some z => Some z
             | None => c x
             end
           else
             match c x with
             | Some z => Some z
             | None => run a xr d
             end
       end) (S (min + length (after x))) min max x
  | Bol => match before x with [] => c x | _ => None end
  | Eol => match after x with [] => c x | _ => None end
  | WordBoundary neg => if xorb neg (at_word_boundary x) then c x else None
  | Lookahead neg a =>
    match run a x Some with
    | Some y => if neg then None else c (mkState (before x) (after x) (caps y))
    | None => if neg then c x else None
    end
  end.

(** One attempt at every start index, left to right. *)
Fixpoint search (r : node) (bef aft : list N) : option (list N * mstate) :=
  match run r (mkState bef aft []) Some with
  | Some y => Some (bef, y)
  | None =>
    match aft with
    | [] => None
    | a :: t => search r (a :: bef) t
    end
  end.

(** The array returned by [str.match(re)] for a pattern without the global
    flag: the matched text and the captures. *)
Record match_result := mkMatch {
  matched : jsstring;
  captures : list (nat * option jsstring)
}.

Definition group (m : match_result) (i : nat) : option jsstring :=
  get_cap i (captures m).

Definition str_match (r : node) (s : jsstring) : option match_result :=
  match search r [] s with
  | None => None
  | Some (bef, y) =>
    Some (mkMatch (consumed_between (mkState bef [] []) y) (caps y))
  end.

(** [s.replace(re, repl)] without the global flag; [repl] holds no [$]. *)
Definition replace_first (r : node) (repl s : jsstring) : jsstring :=
  match search r [] s with
  | None => s
  | Some (bef, y) => rev bef ++ repl ++ after y
  end.

(** [s.replace(re, repl)] with the global flag.  After an empty match the
    scan moves on by one code unit. *)
Fixpoint replace_all_from (fuel : nat) (r : node) (repl : jsstring)
    (bef aft : list N) : jsstring :=
  match fuel with
  | O => aft
  | S f =>
    let skip :=
      match aft with
      | [] => []
      | a :: t => a :: replace_all_from f r repl (a :: bef) t
      end in
    match run r (mkState bef aft []) Some with
    | Some y =>
      if Nat.ltb (length (after y)) (length aft)
      then repl ++ replace_all_from f r repl (before y) (after y)
      else repl ++ skip
    | None => skip
    end
  end.

Definition replace_all (r : node) (repl s : jsstring) : jsstring :=
  replace_all_from (S (length s)) r repl [] s.

(** *** Pattern syntax

    [new RegExp(src)] parses [src]; a malformed pattern makes the
    constructor throw a SyntaxError.  Back-references and the octal,
    hexadecimal, unicode and control escapes, look-behind, named groups and
    inline modifiers are outside the fragment modelled here and are
    reported as such. *)

Inductive presult (A : Type) :=
| POk (a : A)
| PSyntaxError (reason : string)
| PUnsupported.

Arguments POk {A} a.
Arguments PSyntaxError {A} reason.
Arguments PUnsupported {A}.

Definition pbind {A B} (m : presult A) (f : A -> presult B) : presult B :=
  match m with
  | POk a => f a
  | PSyntaxError r => PSyntaxError r
  | PUnsupported => PUnsupported
  end.

Notation "'let?' p := m 'in' k" := (pbind m (fun p => k))
  (at level 10, p pattern, m at level 100, k at level 200).

Fixpoint take_digits (s : list N) (acc : option nat) : option nat * list N :=
  match s with
  | c :: t =>
    if is_digit c
    then take_digits t (Some (10 * default 0 acc + N.to_nat (c - 48)))%nat
    else (acc, s)
  | [] => (acc, s)
  end.

(** The text after an opening brace, when it forms a quantifier. *)
Definition braces (s : list N) : option (nat * option nat * list N) :=
  match take_digits s None with
  | (Some n, c :: t) =>
    if c =? ch "}" then Some (n, Some n, t)
    else if c =? ch "," then
      match take_digits t None with
      | (m, c2 :: t2) => if c2 =? ch "}" then Some (n, m, t2) else None
      | _ => None
      end
    else None
  | _ => None
  end.

Definition quantifier_prefix (s : list N) : option (nat * option nat * list N) :=
  match s with
  | c :: t =>
    if c =? ch "*" then Some (O, None, t)
    else if c =? ch "+" then Some (1%nat, None, t)
    else if c =? ch "?" then Some (O, Some 1%nat, t)
    else if c =? ch "{" then braces t
    else None
  | [] => None
  end.

Definition out_of_order (min : nat) (max : option nat) : bool :=
  match max with Some m => Nat.ltb m min | None => false end.

Definition quantified (a : node) (s : list N) : presult (node * list N) :=
  match quantifier_prefix s with
  | None => POk (a, s)
  | Some (min, max, t) =>
    if out_of_order min max
    then PSyntaxError "numbers out of order in {} quantifier"
    else
      match t with
      | c :: t' =>
        if c =? ch "?" then POk (Repeat min max false a, t')
        else POk (Repeat min max true a, t)
      | [] => POk (Repeat min max true a, t)
      end
  end.

Definition class_escape (e : esc) (neg : bool) : node := CharSet false [CEsc neg e].

(** The escape after a backslash; the flag tells whether a quantifier may
    follow (an assertion takes none). *)
Definition atom_escape (c : N) (t : list N) : presult (node * bool) :=
  if c =? ch "d" then POk (class_escape EDigit false, true)
  else if c =? ch "D" then POk (class_escape EDigit true, true)
  else if c =? ch "w" then POk (class_escape EWord false, true)
  else if c =? ch "W" then POk (class_escape EWord true, true)
  else if c =? ch "s" then POk (class_escape ESpace false, true)
  else if c =? ch "S" then POk (class_escape ESpace true, true)
  else if c =? ch "b" then POk (WordBoundary false, false)
  else if c =? ch "B" then POk (WordBoundary true, false)
  else if c =? ch "f" then POk (Chr 12, true)
  else if c =? ch "n" then POk (Chr 10, true)
  else if c =? ch "r" then POk (Chr 13, true)
  else if c =? ch "t" then POk (Chr 9, true)
  else if c =? ch "v" then POk (Chr 11, true)
  else if c =? ch "0" then
    match t with
    | c' :: _ => if is_digit c' then PUnsupported else POk (Chr 0, true)
    | [] => POk (Chr 0, true)
    end
  else if is_digit c then PUnsupported
  else if (c =? ch "c") || (c =? ch "x") || (c =? ch "u") then PUnsupported
  else POk (Chr c, true).

Inductive catom := CChar (c : N) | CClass (neg : bool) (e : esc).

Definition class_atom (s : list N) : presult (catom * list N) :=
  match s with
  | [] => PSyntaxError "unterminated character class"
  | c :: t =>
    if c =? ch "\" then
      match t with
      | [] => PSyntaxError "\ at end of pattern"
      | e :: t' =>
        if e =? ch "d" then POk (CClass false EDigit, t')
        else if e =? ch "D" then POk (CClass true EDigit, t')
        else if e =? ch "w" then POk (CClass false EWord, t')
        else if e =? ch "W" then POk (CClass true EWord, t')
        else if e =? ch "s" then POk (CClass false ESpace, t')
        else if e =? ch "S" then POk (CClass true ESpace, t')
        else if e =? ch "b" then POk (CChar 8, t')
        else if e =? ch "f" then POk (CChar 12, t')
        else if e =? ch "n" then POk (CChar 10, t')
        else if e =? ch "r" then POk (CChar 13, t')
        else if e =? ch "t" then POk (CChar 9, t')
        else if e =? ch "v" then POk (CChar 11, t')
        else if is_digit e then PUnsupported
        else if (e =? ch "c") || (e =? ch "x") || (e =? ch "u") then PUnsupported
        else POk (CChar e, t')
      end
    else POk (CChar c, t)
  end.

Definition citem_of (a : catom) : citem :=
  match a with
  | CChar c => CRange c c
  | CClass neg e => CEsc neg e
  end.

(** The members of a class, up to the closing bracket. *)
Fixpoint class_items (fuel : nat) (s : list N) (acc : list citem)
    : presult (list citem * list N) :=
  match fuel with
  | O => PUnsupported
  | S f =>
    match s with
    | [] => PSyntaxError "unterminated character class"
    | c :: t =>
      if c =? ch "]" then POk (rev acc, t)
      else
        let? (a, s1) := class_atom s in
        match s1 with
        | d :: s2 =>
          if (d =? ch "-") && negb (starts_with s2 [ch "]"]) then
            let? (b, s3) := class_atom s2 in
            match a, b with
            | CChar lo, CChar hi =>
              if hi <? lo
              then PSyntaxError "range out of order in character class"
              else class_items f s3 (CRange lo hi :: acc)
            | _, _ =>
              class_items f s3 (citem_of b :: CRange (ch "-") (ch "-")
                                  :: citem_of a :: acc)
            end
          else class_items f s1 (citem_of a :: acc)
        | [] => class_items f s1 (citem_of a :: acc)
        end
    end
  end.

Definition char_class (s : list N) : presult (node * list N) :=
  match s with
  | c :: t =>
    if c =? ch "^"
    then let? (items, rest) := class_items (S (length t)) t [] in
         POk (CharSet true items, rest)
    else let? (items, rest) := class_items (S (length s)) s [] in
         POk (CharSet false items, rest)
  | [] => PSyntaxError "unterminated character class"
  end.

Definition is_ascii_letter (c : N) : bool :=
  ((65 <=? c) && (c <=? 90)) || ((97 <=? c) && (c <=? 122)).

(** Disjunction, Alternative and Term of the pattern grammar; [g] is the
    number the next capturing group receives (groups are numbered by their
    opening parenthesis, from 1). *)
Fixpoint disjunction (fuel : nat) (s : list N) (g : nat)
    : presult (node * list N * nat) :=
  match fuel with
  | O => PUnsupported
  | S f =>
    let? (a, s1, g1) := alternative f s g in
    match s1 with
    | c :: t =>
      if c =? ch "|"
      then let? (b, s2, g2) := disjunction f t g1 in POk (Alt a b, s2, g2)
      else POk (a, s1, g1)
    | [] => POk (a, s1, g1)
    end
  end
with alternative (fuel : nat) (s : list N) (g : nat)
    : presult (node * list N * nat) :=
  match fuel with
  | O => PUnsupported
  | S f =>
    match s with
    | [] => POk (Empty, s, g)
    | c :: _ =>
      if (c =? ch "|") || (c =? ch ")") then POk (Empty, s, g)
      else
        let? (a, s1, g1) := term f s g in
        let? (b, s2, g2) := alternative f s1 g1 in
        POk (Cat a b, s2, g2)
    end
  end
with term (fuel : nat) (s : list N) (g : nat)
    : presult (node * list N * nat) :=
  match fuel with
  | O => PUnsupported
  | S f =>
    let closing (wrap : node -> node) (body : list N) (g0 : nat) :=
      let? (d, s1, g1) := disjunction f body g0 in
      match s1 with
      | c :: t =>
        if c =? ch ")"
        then let? (q, s2) := quantified (wrap d) t in POk (q, s2, g1)
        else PSyntaxError "Unterminated group"
      | [] => PSyntaxError "Unterminated group"
      end in
    match quantifier_prefix s with
    | Some _ => PSyntaxError "Nothing to repeat"
    | None =>
      match s with
      | [] => POk (Empty, s, g)
      | c :: t =>
        if c =? ch "^" then POk (Bol, t, g)
        else if c =? ch "$" then POk (Eol, t, g)
        else if c =? ch "." then
          let? (q, s1) := quantified Dot t in POk (q, s1, g)
        else if c =? ch "[" then
          let? (cls, s1) := char_class t in
          let? (q, s2) := quantified cls s1 in POk (q, s2, g)
        else if c =? ch "\" then
          match t with
          | [] => PSyntaxError "\ at end of pattern"
          | e :: t' =>
            let? (a, quantifiable) := atom_escape e t' in
            if quantifiable : bool
            then let? (q, s1) := quantified a t' in POk (q, s1, g)
            else POk (a, t', g)
          end
        else if c =? ch "(" then
          match t with
          | [] => PSyntaxError "Unterminated group"
          | q :: t1 =>
            if q =? ch "?" then
              match t1 with
              | [] => PSyntaxError "Invalid group"
              | k :: t2 =>
                if k =? ch ":" then closing (fun d => d) t2 g
                else if k =? ch "=" then closing (Lookahead false) t2 g
                else if k =? ch "!" then closing (Lookahead true) t2 g
                else if (k =? ch "<") || (k =? ch "-") || is_ascii_letter k
                then PUnsupported
                else PSyntaxError "Invalid group"
              end
            else closing (Group g) t (S g)
          end
        else let? (q, s1) := quantified (Chr c) t in POk (q, s1, g)
      end
    end
  end.

Definition parse (src : jsstring) : presult node :=
  let? (r, rest, _) := disjunction (4 * length src + 4) src 1 in
  match rest with
  | [] => POk r
  | _ => PSyntaxError "Unmatched ')'"
  end.

End RegExp.

Import RegExp.

(** A regular-expression literal of the source text. *)
Definition regex_literal (src : jsstring) : node :=
  match parse src with
  | POk r => r
  | _ => Empty
  end.

(** ** Results of running code

    A call returns a value or throws.  [Unmodelled] marks a run that leaves
    the fragment of the pattern language modelled above. *)

Inductive Outcome (A : Type) :=
| Returned (a : A)
| Threw (e : JsError)
| Unmodelled.

Arguments Returned {A} a.
Arguments Threw {A} e.
Arguments Unmodelled {A}.

Definition obind {A B} (m : Outcome A) (f : A -> Outcome B) : Outcome B :=
  match m with
  | Returned a => f a
  | Threw e => Threw e
  | Unmodelled => Unmodelled
  end.

(** [new RegExp(src)]; the wording of the SyntaxError is the engine's. *)
Definition RegExp_new (src : jsstring) : Outcome node :=
  match parse src with
  | POk r => Returned r
  | PSyntaxError reason =>
    Threw (mkError (lit "Invalid regular expression: " ++ bytes_of reason))
  | PUnsupported => Unmodelled
  end.

(** ** Data model (services/types.ts, common/config.ts) *)

Record AppConfig := mkConfig {
  amapKey : option jsstring;
  amapBaseUrl : option jsstring;
  llmApiKey : option jsstring;
  llmBaseUrl : option jsstring;
  llmModel : option jsstring;
  llmSystemPrompt : option jsstring;
  llmEnableSearch : option bool;
  defaultCity : option jsstring;
  networkTimeout : option N;
  mockMode : option bool
}.

Record WeatherInfo := mkWeatherInfo {
  w_city : jsstring;
  w_adcode : option jsstring;
  w_weather : jsstring;
  w_temperature : jsstring;
  w_winddirection : option jsstring;
  w_windpower : option jsstring;
  w_humidity : option jsstring;
  w_reporttime : option jsstring
}.

Record WeatherForecast := mkForecast {
  f_date : jsstring;
  f_week : option jsstring;
  f_dayweather : jsstring;
  f_nightweather : jsstring;
  f_daytemp : jsstring;
  f_nighttemp : jsstring;
  f_daywind : option jsstring;
  f_nightwind : option jsstring;
  f_daypower : option jsstring;
  f_nightpower : option jsstring
}.

Record RecommendationRequest := mkRequest {
  query : jsstring;
  city : option jsstring;
  location : option jsstring;
  travelDate : option jsstring;
  destination : option jsstring;
  departure : option jsstring
}.

(** Replies of the map service.  The three response interfaces share
    [status] and [info] and each adds optional arrays; the body is cast to
    the interface, not checked, so one record holds all of them. *)
Record AmapPhoto := mkPhoto {
  photo_title : option jsstring;
  photo_url : option jsstring
}.

Record AmapPoi := mkAmapPoi {
  poi_name : jsstring;
  poi_address : jsstring;
  poi_location : jsstring;
  poi_tel : option jsstring;
  poi_distance : option jsstring;
  poi_business_area : option jsstring;
  poi_photos : option (list AmapPhoto)
}.

Record AmapGeocode := mkGeocode {
  geo_formatted_address : jsstring;
  geo_location : jsstring;
  geo_adcode : option jsstring
}.

Record AmapLive := mkLive {
  live_city : jsstring;
  live_adcode : jsstring;
  live_weather : jsstring;
  live_temperature : jsstring;
  live_winddirection : jsstring;
  live_windpower : jsstring;
  live_humidity : jsstring;
  live_reporttime : jsstring
}.

Record AmapCast := mkCast {
  cast_date : jsstring;
  cast_week : jsstring;
  cast_dayweather : jsstring;
  cast_nightweather : jsstring;
  cast_daytemp : jsstring;
  cast_nighttemp : jsstring;
  cast_daywind : jsstring;
  cast_nightwind : jsstring;
  cast_daypower : jsstring;
  cast_nightpower : jsstring
}.

Record AmapForecast := mkAmapForecast {
  fc_city : jsstring;
  fc_casts : list AmapCast
}.

Record AmapResponse := mkAmapResponse {
  status : jsstring;
  info : jsstring;
  pois : option (list AmapPoi);
  geocodes : option (list AmapGeocode);
  lives : option (list AmapLive);
  forecasts : option (list AmapForecast)
}.

Record LlmChatMessage := mkMessage {
  role : string;
  content : jsstring
}.

Record LlmChatRequest := mkLlmRequest {
  model : jsstring;
  messages : list LlmChatMessage;
  max_tokens : N;
  enable_search : bool
}.

(** [choices?.[0]?.message?.content] and [error?.message] of the reply. *)
Record LlmChatResponse := mkLlmResponse {
  first_choice_content : option jsstring;
  error_message : option jsstring
}.

Record ParsedQuery := mkParsed {
  keywords : jsstring;
  pq_city : jsstring
}.

(** ** RecommendationUseCase.parseQuery *)

Module Parser.

Definition re_departure : node :=
  Eval vm_compute in regex_literal (lit "从([^，,]+)出发").

Definition re_city_prefixed : node :=
  Eval vm_compute in regex_literal
    (lit "(?:我想去|去|在|到|玩)([^玩天日出发，,]+?)(?:玩|旅游|一日游|两日游|三日游|出发)").

Definition re_city_trip : node :=
  Eval vm_compute in regex_literal
    (lit "([^今明后出发，,]+?)(?:一日游|两日游|三日游)").

Definition cityPatterns : list node := [re_city_prefixed; re_city_trip].

Definition re_strip_departure : node :=
  Eval vm_compute in regex_literal (lit "从[^，,]+出发").

Definition re_strip_comma_departure : node :=
  Eval vm_compute in regex_literal (lit "，从[^，,]+出发").

Definition re_strip_want : node :=
  Eval vm_compute in regex_literal (lit "我想去").

Definition hardDefaultCity : jsstring := lit "北京".
Definition genericKeywords : jsstring := lit "景点 旅游".
Definition foodKeywords : jsstring := lit "餐厅 美食".
Definition coffeeKeywords : jsstring := lit "咖啡店".

(** [departureMatch ? departureMatch[1].trim() : ''] *)
Definition departureCityOf (query : jsstring) : Outcome jsstring :=
  match str_match re_departure query with
  | None => Returned []
  | Some m =>
    match group m 1 with
    | Some s => Returned (trim s)
    | None => Threw (mkError (lit "Cannot read properties of undefined"))
    end
  end.

(** The guard on an extracted candidate (lines 188-191). *)
Definition acceptCandidate (extractedCity departureCity : jsstring) : bool :=
  Nat.leb (length extractedCity) 4
  && negb (str_eqb extractedCity departureCity)
  && negb (includes extractedCity (lit "出发"))
  && negb (includes extractedCity (lit "从")).

(** The pattern built from the extracted city (line 193). *)
Definition cityPhraseSource (extractedCity : jsstring) : jsstring :=
  lit "(?:我想去|去|在|到|玩)?" ++ extractedCity
  ++ lit "(?:玩|旅游|一日游|两日游|三日游)?".

(** The loop over [cityPatterns], with its [break]; the state is the pair
    of [city] and [keywords]. *)
Fixpoint cityLoop (patterns : list node) (query departureCity : jsstring)
    (st : jsstring * jsstring) : Outcome (jsstring * jsstring) :=
  match patterns with
  | [] => Returned st
  | pattern :: rest =>
    match str_match pattern query with
    | Some m =>
      if truthy (group m 1) then
        let extractedCity := trim (default [] (group m 1)) in
        if acceptCandidate extractedCity departureCity then
          obind (RegExp_new (cityPhraseSource extractedCity)) (fun re =>
            Returned (extractedCity, trim (replace_first re [] query)))
        else cityLoop rest query departureCity st
      else cityLoop rest query departureCity st
    | None => cityLoop rest query departureCity st
    end
  end.

(** Lines 167-198: the city and the keyword text before clean-up. *)
Definition extractCity (cfg : AppConfig) (query : jsstring)
    (defaultCityArg : option jsstring) : Outcome (jsstring * jsstring) :=
  let city := or_str (or_opt defaultCityArg (defaultCity cfg)) hardDefaultCity in
  let keywords := trim query in
  if negb (truthy defaultCityArg) then
    obind (departureCityOf query) (fun departureCity =>
      cityLoop cityPatterns query departureCity (city, keywords))
  else Returned (city, keywords).

(** Lines 201-203. *)
Definition cleanKeywords (keywords : jsstring) : jsstring :=
  let k1 := trim (replace_all re_strip_departure [] keywords) in
  let k2 := trim (replace_all re_strip_comma_departure [] k1) in
  trim (replace_all re_strip_want [] k2).

(** Lines 206-208. *)
Definition genericFallback (keywords : jsstring) : jsstring :=
  if negb (truthy (Some keywords)) || Nat.ltb (length keywords) 2
  then genericKeywords else keywords.

(** Lines 211-217. *)
Definition normalizeKeywords (keywords : jsstring) : jsstring :=
  if includes keywords (lit "吃什么") || includes keywords (lit "餐厅")
     || includes keywords (lit "美食")
  then foodKeywords
  else if includes keywords (lit "玩什么") || includes keywords (lit "景点")
          || includes keywords (lit "旅游")
  then genericKeywords
  else if includes keywords (lit "咖啡") || includes keywords (lit "咖啡店")
  then coffeeKeywords
  else keywords.

Definition parseQuery (cfg : AppConfig) (query : jsstring)
    (defaultCityArg : option jsstring) : Outcome ParsedQuery :=
  obind (extractCity cfg query defaultCityArg) (fun '(city, keywords) =>
    Returned (mkParsed (normalizeKeywords (genericFallback (cleanKeywords keywords)))
                       city)).

End Parser.

Import Parser.

(** ** Concrete configurations, requests and transports *)

Module Examples.

Definition liveConfig : AppConfig :=
  mkConfig (Some (lit "key")) None None None None None None None None (Some false).

Definition noKeyConfig : AppConfig :=
  mkConfig None None None None None None None None None (Some false).

Definition mockConfig : AppConfig :=
  mkConfig None None None None None None None None None (Some true).

Definition requestFor (q : string) : RecommendationRequest :=
  mkRequest (lit q) None None None None None.

Definition place (n : string) : AmapPoi :=
  mkAmapPoi (lit n) [] [] None None None None.

Definition found (ps : list AmapPoi) : JsError + AmapResponse :=
  inr (mkAmapResponse (lit "1") (lit "OK") (Some ps) None None None).

(** Every request fails in transport. *)
Definition unreachable_get {T : Type}
    : T -> jsstring -> list (string * jsstring) -> N -> JsError + AmapResponse :=
  fun _ _ _ _ => inl (mkError (lit "网络请求失败")).

Definition unreachable_post {T : Type}
    : T -> jsstring -> LlmChatRequest -> list (string * jsstring) -> N
      -> JsError + LlmChatResponse :=
  fun _ _ _ _ _ => inl (mkError (lit "网络请求失败")).

(** Every search finds the same two places of one name. *)
Definition twins_get {T : Type}
    : T -> jsstring -> list (string * jsstring) -> N -> JsError + AmapResponse :=
  fun _ _ _ _ => found [place "A"; place "A"].

Fixpoint param (key : string) (params : list (string * jsstring)) : jsstring :=
  match params with
  | [] => []
  | (k, v) :: rest => if String.eqb k key then v else param key rest
  end.

(** The bare keyword finds four places, any other keywords three; the two
    lists share the name A. *)
Definition phased_get {T : Type}
    : T -> jsstring -> list (string * jsstring) -> N -> JsError + AmapResponse :=
  fun _ _ params _ =>
    if str_eqb (param "keywords" params) (lit "景点")
    then found [place "A"; place "D"; place "E"; place "F"]
    else found [place "A"; place "B"; place "C"].

(** A place whose name is the number [n]. *)
Definition numbered (n : nat) : AmapPoi :=
  mkAmapPoi (nat_to_string n) [] [] None None None None.

(** Every search finds the same 51 places, all of different names. *)
Definition crowded_get {T : Type}
    : T -> jsstring -> list (string * jsstring) -> N -> JsError + AmapResponse :=
  fun _ _ _ _ => found (numbered <$> seq 0 51).

(** The bare keyword finds 60 places of different names, any other
    keywords the three places A, B and C. *)
Definition wide_get {T : Type}
    : T -> jsstring -> list (string * jsstring) -> N -> JsError + AmapResponse :=
  fun _ _ params _ =>
    if str_eqb (param "keywords" params) (lit "景点")
    then found (numbered <$> seq 0 60)
    else found [place "A"; place "B"; place "C"].

Definition toNumber (s : jsstring) : N := 0.
Definition numberText (n : N) : jsstring := [].

End Examples.

(** ** Configuration (common/config.ts) *)

Module Config.

Definition DEFAULT_CONFIG : AppConfig :=
  mkConfig None
    (Some (lit "https://restapi.amap.com/v3"))
    None
    (Some (lit "https://dashscope.aliyuncs.com/compatible-mode/v1"))
    (Some (lit "qwen-plus"))
    (Some (lit "你是一个本地生活与旅行路线推荐助手，请结合给定的POI列表给出简洁、可执行的吃喝玩乐方案，并给出推荐理由与行程顺序。"))
    None
    (Some (lit "北京"))
    (Some 12000)
    (Some true).

(** [String.fromCharCode(c)] *)
Definition fromCharCode (c : N) : jsstring := [c mod 65536].

(** toUtf8String (and uint8ArrayToString of common/httpClient.ts): one
    code unit per byte of the array. *)
Definition toUtf8String (data : list N) : jsstring :=
  fold_left (fun result b => result ++ fromCharCode b) data [].

(** A key of the object [JSON.parse] returns: not there, there with
    [null], or there with a value. *)
Inductive Field (A : Type) :=
| Absent
| Null
| Present (a : A).

Arguments Absent {A}.
Arguments Null {A}.
Arguments Present {A} a.

(** What 'config.json' parses to, key by key of the configuration.  A text
    that parses to something else than an object with such keys (a number,
    [null], an array) spreads none of them: every key is [Absent]. *)
Record ParsedConfig := mkParsedConfig {
  p_amapKey : Field jsstring;
  p_amapBaseUrl : Field jsstring;
  p_llmApiKey : Field jsstring;
  p_llmBaseUrl : Field jsstring;
  p_llmModel : Field jsstring;
  p_llmSystemPrompt : Field jsstring;
  p_llmEnableSearch : Field bool;
  p_defaultCity : Field jsstring;
  p_networkTimeout : Field N;
  p_mockMode : Field bool
}.

(** [parsed.key] as the configuration reads it: [undefined] and [null] are
    both [None]. *)
Definition read {A} (f : Field A) : option A :=
  match f with
  | Present v => Some v
  | Absent | Null => None
  end.

(** A key of an object spread: the later object wins when it has the key,
    with [null] as with a value. *)
Definition over {A} (base : option A) (later : Field A) : option A :=
  match later with
  | Absent => base
  | Null => None
  | Present v => Some v
  end.

(** [{ ...base, ...parsed }] *)
Definition spread (base : AppConfig) (parsed : ParsedConfig) : AppConfig :=
  mkConfig
    (over (amapKey base) (p_amapKey parsed))
    (over (amapBaseUrl base) (p_amapBaseUrl parsed))
    (over (llmApiKey base) (p_llmApiKey parsed))
    (over (llmBaseUrl base) (p_llmBaseUrl parsed))
    (over (llmModel base) (p_llmModel parsed))
    (over (llmSystemPrompt base) (p_llmSystemPrompt parsed))
    (over (llmEnableSearch base) (p_llmEnableSearch parsed))
    (over (defaultCity base) (p_defaultCity parsed))
    (over (networkTimeout base) (p_networkTimeout parsed))
    (over (mockMode base) (p_mockMode parsed)).

(** [{ ...c, mockMode: b }] *)
Definition withMockMode (c : AppConfig) (b : bool) : AppConfig :=
  mkConfig (amapKey c) (amapBaseUrl c) (llmApiKey c) (llmBaseUrl c)
    (llmModel c) (llmSystemPrompt c) (llmEnableSearch c) (defaultCity c)
    (networkTimeout c) (Some b).

Inductive ConfigSource := FromFile | Fallback.

Record ConfigResult := mkConfigResult {
  cr_config : AppConfig;
  cr_source : ConfigSource;
  cr_message : option jsstring
}.

Definition fallbackResult (err : JsError) : ConfigResult :=
  mkConfigResult (withMockMode DEFAULT_CONFIG true) Fallback
                 (Some (message err)).

(** loadConfig.  [raw] is what reading 'config.json' gives, the bytes or a
    thrown error; [JSON_parse] is the parser of the language, here giving
    the configuration keys the text holds. *)
Definition loadConfig (JSON_parse : jsstring -> JsError + ParsedConfig)
    (raw : JsError + list N) : ConfigResult :=
  match raw with
  | inl err => fallbackResult err
  | inr byteArray =>
    let text := toUtf8String byteArray in
    match JSON_parse text with
    | inl err => fallbackResult err
    | inr parsed =>
      mkConfigResult (withMockMode (spread DEFAULT_CONFIG parsed) false)
                     FromFile None
    end
  end.

Definition missingCriticalKeys (cfg : AppConfig) : option jsstring :=
  if negb (truthy (amapKey cfg)) then Some (lit "缺少高德地图密钥（amapKey）")
  else if negb (truthy (llmApiKey cfg)) then Some (lit "缺少大模型密钥（llmApiKey）")
  else None.

End Config.

(** ** Query strings (common/httpClient.ts) *)

Module HttpClient.

Definition isAlnum (c : N) : bool :=
  ((48 <=? c) && (c <=? 57)) || ((65 <=? c) && (c <=? 90))
  || ((97 <=? c) && (c <=? 122)).

(** The characters encodeURIComponent leaves as they are. *)
Definition uriUnreserved (c : N) : bool :=
  isAlnum c || existsb (N.eqb c) (lit "-_.!~*'()").

Definition hexDigit (n : N) : N := if n <? 10 then 48 + n else 55 + n.

Definition percent (b : N) : jsstring :=
  [37; hexDigit (b / 16); hexDigit (b mod 16)].

Definition utf8_bytes (cp : N) : list N :=
  if cp <? 128 then [cp]
  else if cp <? 2048 then [192 + cp / 64; 128 + cp mod 64]
  else if cp <? 65536 then
    [224 + cp / 4096; 128 + (cp / 64) mod 64; 128 + cp mod 64]
  else [240 + cp / 262144; 128 + (cp / 4096) mod 64;
        128 + (cp / 64) mod 64; 128 + cp mod 64].

Definition escaped (cp : N) : jsstring := flat_map percent (utf8_bytes cp).

Definition uriError : JsError := mkError (lit "URI malformed").

(** [encodeURIComponent(s)]: a surrogate that is not half of a pair makes
    it throw a URIError. *)
Fixpoint encodeURIComponent (s : jsstring) : Outcome jsstring :=
  match s with
  | [] => Returned []
  | c :: t =>
    if uriUnreserved c then
      obind (encodeURIComponent t) (fun r => Returned (c :: r))
    else if (c <? 55296) || (57343 <? c) then
      obind (encodeURIComponent t) (fun r => Returned (escaped c ++ r))
    else if c <? 56320 then
      match t with
      | d :: t' =>
        if (56320 <=? d) && (d <=? 57343) then
          obind (encodeURIComponent t') (fun r =>
            Returned (escaped (65536 + (c - 55296) * 1024 + (d - 56320)) ++ r))
        else Threw uriError
      | [] => Threw uriError
      end
    else Threw uriError
  end.

(** A string of 16-bit code units. *)
Definition codeUnits (s : jsstring) : Prop := Forall (fun c => c < 65536) s.

(** No surrogate outside a pair (what [isWellFormed] tests). *)
Fixpoint wellFormed (s : jsstring) : bool :=
  match s with
  | [] => true
  | c :: t =>
    if (c <? 55296) || (57343 <? c) then wellFormed t
    else if c <? 56320 then
      match t with
      | d :: t' => (56320 <=? d) && (d <=? 57343) && wellFormed t'
      | [] => false
      end
    else false
  end.

(** Safe inside a URL component: unreserved, or the percent sign. *)
Definition uriSafe (c : N) : bool := uriUnreserved c || (c =? 37).

(** Safe inside a query string: the above, and the two separators. *)
Definition querySafe (c : N) : bool := uriSafe c || (c =? 61) || (c =? 38).

Section Query.

Context {JsNumber : Type}.
Variable number_to_string : JsNumber -> jsstring.

(** A value of the params record: [string | number | undefined], and the
    [null] that the filter also tests for. *)
Inductive ParamValue :=
| PString (s : jsstring)
| PNumber (n : JsNumber)
| PUndefined
| PNull.

(** [value !== undefined && value !== null && value !== ''] *)
Definition kept (entry : jsstring * ParamValue) : bool :=
  match entry.2 with
  | PString [] | PUndefined | PNull => false
  | _ => true
  end.

(** [String(value)] *)
Definition valueText (v : ParamValue) : jsstring :=
  match v with
  | PString s => s
  | PNumber n => number_to_string n
  | PUndefined => lit "undefined"
  | PNull => lit "null"
  end.

Definition encodeEntry (entry : jsstring * ParamValue) : Outcome jsstring :=
  obind (encodeURIComponent entry.1) (fun k =>
  obind (encodeURIComponent (valueText entry.2)) (fun v =>
  Returned (k ++ lit "=" ++ v))).

(** [entries.map(f)] for a callback that may throw. *)
Fixpoint mapOutcome {A B} (f : A -> Outcome B) (l : list A) : Outcome (list B) :=
  match l with
  | [] => Returned []
  | a :: l' =>
    obind (f a) (fun b => obind (mapOutcome f l') (fun bs => Returned (b :: bs)))
  end.

(** buildQuery; the entries of [params] are in the order of its keys (none
    of which is an array index). *)
Definition buildQuery (params : option (list (jsstring * ParamValue)))
    : Outcome jsstring :=
  match params with
  | None => Returned []
  | Some entries =>
    obind (mapOutcome encodeEntry (List.filter kept entries)) (fun parts =>
      let q := join (lit "&") parts in
      Returned (if truthy (Some q) then lit "?" ++ q else []))
  end.

End Query.

End HttpClient.

(** More transports: a geocoder that always finds the area code 110000, a
    model that answers, and one that times out. *)
Module MoreExamples.

Definition geocoded_get {T : Type}
    : T -> jsstring -> list (string * jsstring) -> N -> JsError + AmapResponse :=
  fun _ _ _ _ =>
    inr (mkAmapResponse (lit "1") (lit "OK") None
           (Some [mkGeocode (lit "北京市") (lit "116.4,39.9") (Some (lit "110000"))])
           None None).

Definition answering_post {T : Type}
    : T -> jsstring -> LlmChatRequest -> list (string * jsstring) -> N
      -> JsError + LlmChatResponse :=
  fun _ _ _ _ _ => inr (mkLlmResponse (Some (lit "先去故宫")) None).

Definition timeout_post {T : Type}
    : T -> jsstring -> LlmChatRequest -> list (string * jsstring) -> N
      -> JsError + LlmChatResponse :=
  fun _ _ _ _ _ => inl (mkError (lit "Request Timeout")).

Definition bothKeysConfig : AppConfig :=
  mkConfig (Some (lit "key")) None (Some (lit "sk")) None None None None None
           None (Some false).

(** A 'config.json' that holds the two keys and nothing else, and one that
    also holds [networkTimeout] with [null]. *)
Definition keysOnlyFile : Config.ParsedConfig :=
  Config.mkParsedConfig
    (Config.Present (lit "key")) Config.Absent (Config.Present (lit "sk"))
    Config.Absent Config.Absent Config.Absent Config.Absent Config.Absent
    Config.Absent Config.Absent.

Definition nullTimeoutFile : Config.ParsedConfig :=
  Config.mkParsedConfig
    (Config.Present (lit "key")) Config.Absent (Config.Present (lit "sk"))
    Config.Absent Config.Absent Config.Absent Config.Absent Config.Absent
    Config.Null Config.Absent.

End MoreExamples.

(** ** Services and the orchestrator

    [JsNumber] stands for the floating-point numbers of the language:
    [Number] converts the distance text of a reply, [number_to_string]
    renders it in a template string. *)

Section UseCase.

Context {JsNumber : Type}.
Variable Number : jsstring -> JsNumber.
Variable number_to_string : JsNumber -> jsstring.

Record PoiItem := mkPoiItem {
  name : jsstring;
  address : option jsstring;
  poi_loc : option jsstring;
  poi_city : option jsstring;
  distance : option JsNumber;
  score : option JsNumber;
  tel : option jsstring;
  image : option jsstring
}.

Record RecommendationResult := mkResult {
  summary : jsstring;
  items : list PoiItem;
  fromMock : option bool;
  weather : option WeatherInfo;
  weatherForecast : option (list WeatherForecast)
}.

(** What a run does to the outside world: the service methods it enters
    and the requests it sends, most recent first. *)
Inductive Event :=
| CallSearchPoi (kw : jsstring) (c : option jsstring)
| CallGetCityAdcode (cityName : jsstring)
| CallGetWeather (c : jsstring) (adcode : option jsstring)
| CallGetWeatherForecast (c : jsstring) (adcode : option jsstring)
| CallGenerateRecommendation (userQuery : jsstring) (ps : list PoiItem)
    (context : option jsstring)
| HttpGet (url : jsstring) (params : list (string * jsstring)) (timeout : N)
| HttpPost (url : jsstring) (body : LlmChatRequest)
    (headers : list (string * jsstring)) (timeout : N).

Definition Trace := list Event.

(** The transport (common/httpClient.ts): the reply to a request may depend
    on everything that happened before it; a rejected promise is an
    [HttpError]. *)
Variable httpGet :
  Trace -> jsstring -> list (string * jsstring) -> N -> JsError + AmapResponse.
Variable httpPost :
  Trace -> jsstring -> LlmChatRequest -> list (string * jsstring) -> N
  -> JsError + LlmChatResponse.

(** Calls thread the trace and end in an [Outcome]; a throw keeps the
    trace reached so far. *)
Definition M (A : Type) : Type := Trace -> Outcome A * Trace.

Definition ret {A} (a : A) : M A := fun w => (Returned a, w).

Definition throw {A} (e : JsError) : M A := fun w => (Threw e, w).

Definition bind {A B} (m : M A) (f : A -> M B) : M B :=
  fun w =>
    match m w with
    | (Returned a, w') => f a w'
    | (Threw e, w') => (Threw e, w')
    | (Unmodelled, w') => (Unmodelled, w')
    end.

Definition try_catch {A} (body : M A) (handler : JsError -> M A) : M A :=
  fun w =>
    match body w with
    | (Threw e, w') => handler e w'
    | r => r
    end.

Definition lift {A} (o : Outcome A) : M A := fun w => (o, w).

Definition emit (e : Event) : M unit := fun w => (Returned tt, e :: w).

Definition await_get (url : jsstring) (params : list (string * jsstring))
    (timeout : N) : M AmapResponse :=
  fun w =>
    match httpGet w url params timeout with
    | inl e => (Threw e, HttpGet url params timeout :: w)
    | inr d => (Returned d, HttpGet url params timeout :: w)
    end.

Definition await_post (url : jsstring) (body : LlmChatRequest)
    (headers : list (string * jsstring)) (timeout : N) : M LlmChatResponse :=
  fun w =>
    match httpPost w url body headers timeout with
    | inl e => (Threw e, HttpPost url body headers timeout :: w)
    | inr d => (Returned d, HttpPost url body headers timeout :: w)
    end.

Notation "'let!' p := m 'in' k" := (bind m (fun p => k))
  (at level 10, p pattern, m at level 100, k at level 200).

Variable config : AppConfig.

(** [this.config.networkTimeout || d] *)
Definition timeout_or (d : N) : N :=
  match networkTimeout config with
  | Some 0 | None => d
  | Some n => n
  end.

Definition isMock : bool := default false (mockMode config).

Definition amapBase : jsstring :=
  or_str (amapBaseUrl config) (lit "https://restapi.amap.com/v3").

(** *** AmapService.searchPoi *)

Definition toPoiItem (searchCity : jsstring) (poi : AmapPoi) : PoiItem :=
  let imageUrl :=
    match poi_photos poi with
    | Some (ph :: _) => if truthy (photo_url ph) then photo_url ph else None
    | _ => None
    end in
  mkPoiItem
    (poi_name poi)
    (Some (or_str (or_opt (Some (poi_address poi)) (poi_business_area poi)) []))
    (Some (poi_location poi))
    (Some searchCity)
    (if truthy (poi_distance poi)
     then Some (Number (default [] (poi_distance poi))) else None)
    None
    (poi_tel poi)
    imageUrl.

Definition searchPoi (kw : jsstring) (c : option jsstring) : M (list PoiItem) :=
  let! _ := emit (CallSearchPoi kw c) in
  if negb (truthy (amapKey config)) then
    throw (mkError (lit "高德地图密钥未配置"))
  else
    let url := amapBase ++ lit "/place/text" in
    let searchCity := or_str (or_opt c (defaultCity config)) hardDefaultCity in
    try_catch
      (let requestParams :=
         [("key"%string, default [] (amapKey config));
          ("keywords"%string, kw);
          ("city"%string, searchCity);
          ("output"%string, lit "JSON");
          ("offset"%string, lit "50");
          ("page"%string, lit "1");
          ("extensions"%string, lit "all")] in
       let! response := await_get url requestParams (timeout_or 12000) in
       if negb (str_eqb (status response) (lit "1")) then
         throw (mkError (lit "高德API错误: "
                         ++ or_str (Some (info response)) (lit "未知错误")))
       else
         let ps := default [] (pois response) in
         ret (toPoiItem searchCity <$> ps))
      (fun httpErr =>
         throw (mkError (lit "POI搜索失败: "
                         ++ or_str (Some (message httpErr)) (lit "网络错误")))).

(** *** AmapService.getCityAdcode *)

Definition getCityAdcode (cityName : jsstring) : M (option jsstring) :=
  let! _ := emit (CallGetCityAdcode cityName) in
  if negb (truthy (amapKey config)) then ret None
  else
    let url := amapBase ++ lit "/geocode/geo" in
    try_catch
      (let requestParams :=
         [("key"%string, default [] (amapKey config));
          ("address"%string, cityName);
          ("output"%string, lit "JSON")] in
       let! response := await_get url requestParams (timeout_or 12000) in
       if str_eqb (status response) (lit "1") then
         match geocodes response with
         | Some (g :: _) =>
           if truthy (geo_adcode g) then ret (geo_adcode g) else ret None
         | _ => ret None
         end
       else ret None)
      (fun _ => ret None).

(** *** AmapService.getWeather *)

(** Lines 506-513 and 581-588: the [city] parameter of the weather request. *)
Definition resolveCityParam (c : jsstring) (adcode : option jsstring) : M jsstring :=
  let! finalAdcode :=
    if negb (truthy adcode) then getCityAdcode c else ret adcode in
  ret (if truthy finalAdcode then default [] finalAdcode else c).

Definition toWeatherInfo (live : AmapLive) : WeatherInfo :=
  mkWeatherInfo (live_city live) (Some (live_adcode live)) (live_weather live)
    (live_temperature live) (Some (live_winddirection live))
    (Some (live_windpower live)) (Some (live_humidity live))
    (Some (live_reporttime live)).

Definition getWeather (c : jsstring) (adcode : option jsstring)
    : M (option WeatherInfo) :=
  let! _ := emit (CallGetWeather c adcode) in
  if negb (truthy (amapKey config)) then ret None
  else
    let url := amapBase ++ lit "/weather/weatherInfo" in
    try_catch
      (let! cityParam := resolveCityParam c adcode in
       let requestParams :=
         [("key"%string, default [] (amapKey config));
          ("city"%string, cityParam);
          ("extensions"%string, lit "base");
          ("output"%string, lit "JSON")] in
       let! response := await_get url requestParams (timeout_or 12000) in
       if negb (str_eqb (status response) (lit "1")) then ret None
       else
         match lives response with
         | Some (live :: _) => ret (Some (toWeatherInfo live))
         | _ => ret None
         end)
      (fun _ => ret None).

(** *** AmapService.getWeatherForecast *)

Definition toForecast (cast : AmapCast) : WeatherForecast :=
  mkForecast (cast_date cast) (Some (cast_week cast)) (cast_dayweather cast)
    (cast_nightweather cast) (cast_daytemp cast) (cast_nighttemp cast)
    (Some (cast_daywind cast)) (Some (cast_nightwind cast))
    (Some (cast_daypower cast)) (Some (cast_nightpower cast)).

Definition getWeatherForecast (c : jsstring) (adcode : option jsstring)
    : M (option (list WeatherForecast)) :=
  let! _ := emit (CallGetWeatherForecast c adcode) in
  if negb (truthy (amapKey config)) then ret None
  else
    let url := amapBase ++ lit "/weather/weatherInfo" in
    try_catch
      (let! cityParam := resolveCityParam c adcode in
       let requestParams :=
         [("key"%string, default [] (amapKey config));
          ("city"%string, cityParam);
          ("extensions"%string, lit "all");
          ("output"%string, lit "JSON")] in
       let! response := await_get url requestParams (timeout_or 12000) in
       if negb (str_eqb (status response) (lit "1")) then ret None
       else
         match forecasts response with
         | Some (forecast :: _) => ret (Some (map toForecast (fc_casts forecast)))
         | _ => ret None
         end)
      (fun _ => ret None).

(** *** Rendering of a place list *)

Definition nl : jsstring := [10].

(** One numbered line of a listing (the callback of [map] in
    generateDefaultSummary and generateRecommendation). *)
Definition renderPoi (index : nat) (poi : PoiItem) : jsstring :=
  let text := nat_to_string (index + 1) ++ lit ". " ++ name poi in
  let text :=
    if truthy (address poi)
    then text ++ lit "（" ++ default [] (address poi) ++ lit "）" else text in
  match distance poi with
  | Some d => text ++ lit " - 距离" ++ number_to_string d ++ lit "米"
  | None => text
  end.

(** *** LlmService.generateRecommendation *)

Definition defaultSystemPrompt : jsstring :=
  lit "你是一个本地生活与旅行路线推荐助手，请结合给定的POI列表给出简洁、可执行的吃喝玩乐方案，并给出推荐理由与行程顺序。".

Definition generateRecommendation (userQuery : jsstring) (ps : list PoiItem)
    (context : option jsstring) : M jsstring :=
  let! _ := emit (CallGenerateRecommendation userQuery ps context) in
  if negb (truthy (llmApiKey config)) then
    throw (mkError (lit "大模型密钥未配置"))
  else
    let baseUrl :=
      or_str (llmBaseUrl config)
             (lit "https://dashscope.aliyuncs.com/compatible-mode/v1") in
    let mdl := or_str (llmModel config) (lit "qwen-plus") in
    let url := baseUrl ++ lit "/chat/completions" in
    let systemPrompt := or_str (llmSystemPrompt config) defaultSystemPrompt in
    let poiText := join nl (imap renderPoi ps) in
    let userContent :=
      lit "用户问题：" ++ userQuery ++ nl ++ nl
      ++ (if truthy context
          then lit "上下文：" ++ default [] context ++ nl ++ nl else [])
      ++ lit "可选的POI列表：" ++ nl ++ poiText ++ nl ++ nl
      ++ lit "请根据用户问题，从上述POI中选择合适的推荐，并给出推荐理由和行程安排。如果用户问题涉及路线规划，请提供时间安排。" in
    let msgs := [mkMessage "system" systemPrompt; mkMessage "user" userContent] in
    try_catch
      (let llmTimeout := timeout_or 60000 in
       let enableSearch :=
         match llmEnableSearch config with Some false => false | _ => true end in
       let requestBody := mkLlmRequest mdl msgs 1500 enableSearch in
       let! response :=
         await_post url requestBody
           [("Authorization"%string, lit "Bearer " ++ default [] (llmApiKey config));
            ("Content-Type"%string, lit "application/json")]
           llmTimeout in
       match error_message response with
       | Some msg => throw (mkError (lit "大模型API错误: " ++ msg))
       | None =>
         if negb (truthy (first_choice_content response))
         then throw (mkError (lit "大模型返回内容为空"))
         else ret (default [] (first_choice_content response))
       end)
      (fun httpErr =>
         throw (mkError (lit "大模型调用失败: "
                         ++ or_str (Some (message httpErr)) (lit "网络错误")))).

(** *** RecommendationUseCase.generateDefaultSummary *)

Definition generateDefaultSummary (ps : list PoiItem) (q : jsstring) : jsstring :=
  if Nat.eqb (length ps) 0 then
    lit "根据您的查询" ++ [34] ++ q ++ [34] ++ lit "，暂未找到相关推荐。"
  else
    let listing := join nl (imap renderPoi (take 5 ps)) in
    lit "为您找到以下推荐：" ++ nl ++ nl ++ listing ++ nl ++ nl
    ++ (if Nat.ltb 5 (length ps)
        then lit "还有" ++ nat_to_string (length ps - 5) ++ lit "个结果未显示。"
        else []).

(** *** RecommendationUseCase.getRecommendations *)

(** Lines 39-46: the keywords sent to the first search. *)
Definition augmentKeywords (kw : jsstring) : jsstring :=
  if negb (truthy (Some kw)) || str_eqb kw genericKeywords then
    lit "景点|旅游景点|名胜古迹|景区|公园|博物馆|纪念馆"
  else if negb (includes kw (lit "景点")) && negb (includes kw (lit "旅游")) then
    kw ++ lit "|景点|旅游景点"
  else kw.

(** Lines 53-55: the merge of the two search phases. *)
Definition mergePois (ps fallbackPois : list PoiItem) : list PoiItem :=
  let existingNames : gset jsstring := list_to_set (name <$> ps) in
  let newPois := filter (fun p => name p ∉ existingNames) fallbackPois in
  take 50 (ps ++ newPois).

(** Lines 35-61: the search step. *)
Definition searchStage (kw searchCity : jsstring) : M (list PoiItem) :=
  if negb isMock && truthy (amapKey config) then
    try_catch
      (let searchKeywords := augmentKeywords kw in
       let! ps := searchPoi searchKeywords (Some searchCity) in
       if Nat.ltb (length ps) 5 then
         let! fallbackPois := searchPoi (lit "景点") (Some searchCity) in
         ret (mergePois ps fallbackPois)
       else ret ps)
      (fun _ => ret [])
  else ret [].

(** Lines 73-84: [weather] and [weatherForecast] keep what was assigned
    before a throw. *)
Definition weatherStage (searchCity : jsstring)
    : M (option WeatherInfo * option (list WeatherForecast)) :=
  if negb isMock && truthy (amapKey config) && truthy (Some searchCity) then
    try_catch
      (let! cityAdcode := getCityAdcode searchCity in
       try_catch
         (let! w := getWeather searchCity cityAdcode in
          try_catch
            (let! fc := getWeatherForecast searchCity cityAdcode in
             ret (w, fc))
            (fun _ => ret (w, None)))
         (fun _ => ret (None, None)))
      (fun _ => ret (None, None))
  else ret (None, None).

(** [context += context ? `, ${seg}` : seg] *)
Definition addSegment (context seg : jsstring) : jsstring :=
  if truthy (Some context) then context ++ lit ", " ++ seg else context ++ seg.

Definition labelled (label : jsstring) (v : option jsstring) (context : jsstring)
    : jsstring :=
  if truthy v then addSegment context (label ++ default [] v) else context.

Definition renderForecast (f : WeatherForecast) : jsstring :=
  f_date f ++ lit ": 白天" ++ f_dayweather f ++ lit " " ++ f_daytemp f
  ++ lit "°C, 夜间" ++ f_nightweather f ++ lit " " ++ f_nighttemp f ++ lit "°C".

(** Lines 91-123. *)
Definition buildContext (request : RecommendationRequest)
    (w : option WeatherInfo) (fc : option (list WeatherForecast)) : jsstring :=
  let context :=
    if truthy (destination request)
    then lit "目的地: " ++ default [] (destination request) else [] in
  let context := labelled (lit "出发地: ") (departure request) context in
  let context := labelled (lit "出行日期: ") (travelDate request) context in
  let context := labelled (lit "当前位置: ") (location request) context in
  let context :=
    match w with
    | Some wi =>
      let context :=
        addSegment context
          (lit "当前天气: " ++ w_weather wi ++ lit ", 温度: "
           ++ w_temperature wi ++ lit "°C") in
      let context :=
        if truthy (w_winddirection wi) && truthy (w_windpower wi)
        then context ++ lit ", 风向: " ++ default [] (w_winddirection wi)
             ++ lit ", 风力: " ++ default [] (w_windpower wi)
        else context in
      if truthy (w_humidity wi)
      then context ++ lit ", 湿度: " ++ default [] (w_humidity wi) ++ lit "%"
      else context
    | None => context
    end in
  match fc with
  | Some (f :: fs) =>
    addSegment context
      (lit "未来天气: " ++ join (lit "; ") (map renderForecast (f :: fs)))
  | _ => context
  end.

Definition timeoutNote : jsstring :=
  nl ++ nl ++ lit "（注：AI推荐生成超时，已显示基础推荐列表）".

(** Lines 87-143: the summary. *)
Definition narrativeStage (request : RecommendationRequest) (ps : list PoiItem)
    (w : option WeatherInfo) (fc : option (list WeatherForecast)) : M jsstring :=
  if negb isMock && truthy (llmApiKey config) then
    try_catch
      (let context := buildContext request w fc in
       generateRecommendation (query request) ps
         (if truthy (Some context) then Some context else None))
      (fun err =>
         if includes (message err) (lit "Timeout")
            || includes (message err) (lit "超时")
         then ret (generateDefaultSummary ps (query request) ++ timeoutNote)
         else ret (generateDefaultSummary ps (query request)))
  else ret (generateDefaultSummary ps (query request)).

Definition noResultsSummary : jsstring :=
  lit "未找到相关地点，请尝试其他关键词或检查网络连接。".

Definition failurePrefix : jsstring := lit "获取推荐失败: ".

(** The result built by the outer [catch] (lines 152-159). *)
Definition failureResult (err : JsError) : RecommendationResult :=
  mkResult (failurePrefix ++ message err) [] (Some false) None None.

(** [request.destination || request.city || this.config.defaultCity || '北京'] *)
Definition targetCityOf (request : RecommendationRequest) : jsstring :=
  or_str (or_opt (or_opt (destination request) (city request))
                 (defaultCity config))
         hardDefaultCity.

(** Lines 25-61: the search city and the places found. *)
Definition placesStep (request : RecommendationRequest)
    : M (jsstring * list PoiItem) :=
  let targetCity := targetCityOf request in
  let! parsed := lift (parseQuery config (query request) (Some targetCity)) in
  let searchCity :=
    or_str (or_opt (destination request) (Some (pq_city parsed))) targetCity in
  let! ps := searchStage (keywords parsed) searchCity in
  ret (searchCity, ps).

(** The body of the outer [try] (lines 25-151). *)
Definition getRecommendations_body (request : RecommendationRequest)
    : M RecommendationResult :=
  let! (searchCity, ps) := placesStep request in
  if Nat.eqb (length ps) 0 && negb isMock then
    ret (mkResult noResultsSummary [] (Some false) None None)
  else
    let! (w, fc) := weatherStage searchCity in
    let! text := narrativeStage request ps w fc in
    ret (mkResult text ps (Some isMock) w fc).

(** The outer [try] and its [catch] (lines 24 and 152-159) around the
    steps. *)
Definition outerTry (steps : M RecommendationResult) : M RecommendationResult :=
  try_catch steps (fun err => ret (failureResult err)).

Definition getRecommendations (request : RecommendationRequest)
    : M RecommendationResult :=
  outerTry (getRecommendations_body request).

(** *** AmapService.geocode *)

Definition geocode (addr : jsstring) (c : option jsstring)
    : M (option (jsstring * jsstring)) :=
  if negb (truthy (amapKey config)) then
    throw (mkError (lit "高德地图密钥未配置"))
  else
    let url := amapBase ++ lit "/geocode/geo" in
    let searchCity := or_str (or_opt c (defaultCity config)) hardDefaultCity in
    try_catch
      (let requestParams :=
         [("key"%string, default [] (amapKey config));
          ("address"%string, addr);
          ("city"%string, searchCity);
          ("output"%string, lit "JSON")] in
       let! response := await_get url requestParams (timeout_or 12000) in
       if negb (str_eqb (status response) (lit "1")) then ret None
       else
         match geocodes response with
         | Some (g :: _) => ret (Some (geo_location g, geo_formatted_address g))
         | _ => ret None
         end)
      (fun _ => ret None).

(** The parameters of the requests the weather adapter sends. *)
Definition geoParams (cityName : jsstring) : list (string * jsstring) :=
  [("key"%string, default [] (amapKey config));
   ("address"%string, cityName);
   ("output"%string, lit "JSON")].

Definition weatherParams (cityParam : jsstring) (extensions : string)
    : list (string * jsstring) :=
  [("key"%string, default [] (amapKey config));
   ("city"%string, cityParam);
   ("extensions"%string, lit extensions);
   ("output"%string, lit "JSON")].

(** How often a trace enters getCityAdcode. *)
Fixpoint adcodeLookups (tr : Trace) : nat :=
  match tr with
  | [] => 0
  | CallGetCityAdcode _ :: tr' => S (adcodeLookups tr')
  | _ :: tr' => adcodeLookups tr'
  end.

(** Every geocoding reply carries the area code [a] in its first result. *)
Definition geocodesTo (a : jsstring) : Prop :=
  forall w0 ps t, exists d g gs,
    httpGet w0 (amapBase ++ lit "/geocode/geo") ps t = inr d
    /\ status d = lit "1" /\ geocodes d = Some (g :: gs)
    /\ geo_adcode g = Some a.

(** An event that is not a search, or a search in city [c]. *)
Definition searchesIn (c : jsstring) (e : Event) : Prop :=
  match e with
  | CallSearchPoi _ c' => c' = Some c
  | _ => True
  end.

(** The timeout each request is sent with: the configured network timeout,
    else 12000 for the map service and 60000 for the model. *)
Definition timeoutsAre (e : Event) : Prop :=
  match e with
  | HttpGet _ _ t => t = timeout_or 12000
  | HttpPost _ _ _ t => t = timeout_or 60000
  | _ => True
  end.

(** ** Specification-side definitions *)

(** [p] occurs in [s] as a contiguous piece. *)
Definition contains (s p : jsstring) : Prop := exists a b, s = a ++ p ++ b.

Definition containsAny (s : jsstring) (ps : list jsstring) : Prop :=
  Exists (contains s) ps.

(** The merge as the specification words it: the first-phase list, then the
    second-phase items whose name does not appear in it, cut at 50. *)
Definition mergeSpec (first second : list PoiItem) : list PoiItem :=
  take 50 (first ++ filter (fun p => name p ∉ (name <$> first)) second).

(** A call that always returns, and a call that stays within the model. *)
Definition returns {A} (m : M A) : Prop :=
  forall w, exists a w', m w = (Returned a, w').

Definition modelled {A} (m : M A) : Prop :=
  forall w, (m w).1 <> Unmodelled.

(** Every event a call adds to the trace satisfies [P]. *)
Definition adds {A} (P : Event -> Prop) (m : M A) : Prop :=
  forall w o w', m w = (o, w') -> exists added, w' = added ++ w /\ Forall P added.

Definition isSearchEvent (e : Event) : Prop :=
  match e with
  | CallSearchPoi _ _ => True
  | HttpGet url _ _ => url = amapBase ++ lit "/place/text"
  | _ => False
  end.

Definition geoUrl : jsstring := amapBase ++ lit "/geocode/geo".
Definition weatherUrl : jsstring := amapBase ++ lit "/weather/weatherInfo".

(** A reply that carries no usable data: the transport failed, the status
    is not ['1'], or the list read from it is absent or empty. *)
Definition degraded {B} (field : AmapResponse -> option (list B))
    (reply : JsError + AmapResponse) : Prop :=
  match reply with
  | inl _ => True
  | inr d => status d <> lit "1" \/ field d = None \/ field d = Some []
  end.

Definition isWeatherEvent (e : Event) : Prop :=
  match e with
  | CallGetCityAdcode _ | CallGetWeather _ _ | CallGetWeatherForecast _ _ => True
  | HttpGet url _ _ => url = geoUrl \/ url = weatherUrl
  | _ => False
  end.

Definition isNarrativeEvent (e : Event) : Prop :=
  match e with
  | CallGenerateRecommendation _ _ _ | HttpPost _ _ _ _ => True
  | _ => False
  end.

(** The list [l] is the one every call of the narrative stage is handed. *)
Definition narrativeGets (l : list PoiItem) (e : Event) : Prop :=
  match e with
  | CallGenerateRecommendation _ ps _ => ps = l
  | _ => True
  end.

(** The second-phase items that repeat a first-phase name. *)
Definition sharedNames (first second : list PoiItem) : list PoiItem :=
  filter (fun p => name p ∈ (name <$> first)) second.

(** ** The call monad *)

Lemma returns_ret {A} (a : A) : returns (ret a).
Proof. intros w. by exists a, w. Qed.

Lemma returns_emit e : returns (emit e).
Proof. intros w. by exists tt, (e :: w). Qed.

Lemma returns_bind {A B} (m : M A) (f : A -> M B) :
  returns m -> (forall a, returns (f a)) -> returns (bind m f).
Proof.
  intros Hm Hf w. destruct (Hm w) as (a & w1 & E).
  destruct (Hf a w1) as (b & w2 & E2).
  exists b, w2. unfold bind. by rewrite E.
Qed.

Lemma returns_modelled {A} (m : M A) : returns m -> modelled m.
Proof. intros H w. destruct (H w) as (a & w' & ->). done. Qed.

Lemma modelled_ret {A} (a : A) : modelled (ret a).
Proof. done. Qed.

Lemma modelled_throw {A} e : modelled (@throw A e).
Proof. done. Qed.

Lemma modelled_emit e : modelled (emit e).
Proof. done. Qed.

Lemma modelled_await_get url params t : modelled (await_get url params t).
Proof. intros w. unfold await_get. by destruct (httpGet _ _ _ _). Qed.

Lemma modelled_await_post url body hs t : modelled (await_post url body hs t).
Proof. intros w. unfold await_post. by destruct (httpPost _ _ _ _ _). Qed.

Lemma modelled_bind {A B} (m : M A) (f : A -> M B) :
  modelled m -> (forall a, modelled (f a)) -> modelled (bind m f).
Proof.
  intros Hm Hf w. unfold bind. specialize (Hm w).
  destruct (m w) as [[a|e|] w1]; simpl in *; try done. apply Hf.
Qed.

Lemma modelled_try_catch {A} (body : M A) (h : JsError -> M A) :
  modelled body -> (forall e, modelled (h e)) -> modelled (try_catch body h).
Proof.
  intros Hb Hh w. unfold try_catch. specialize (Hb w).
  destruct (body w) as [[a|e|] w1]; simpl in *; try done. apply Hh.
Qed.

Lemma returns_try_catch {A} (body : M A) (h : JsError -> M A) :
  modelled body -> (forall e, returns (h e)) -> returns (try_catch body h).
Proof.
  intros Hb Hh w. unfold try_catch. specialize (Hb w).
  destruct (body w) as [[a|e|] w1]; simpl in *; try done.
  - by exists a, w1.
  - apply Hh.
Qed.

Lemma adds_ret {A} P (a : A) : adds P (ret a).
Proof. intros w o w' [= <- <-]. by exists []. Qed.

Lemma adds_throw {A} P e : adds P (@throw A e).
Proof. intros w o w' [= <- <-]. by exists []. Qed.

Lemma adds_lift {A} P (o : Outcome A) : adds P (lift o).
Proof. intros w o' w' [= <- <-]. by exists []. Qed.

Lemma adds_emit (P : Event -> Prop) e : P e -> adds P (emit e).
Proof. intros He w o w' [= <- <-]. exists [e]. split; [done | by constructor]. Qed.

Lemma adds_await_get (P : Event -> Prop) url params t :
  P (HttpGet url params t) -> adds P (await_get url params t).
Proof.
  intros He w o w'. unfold await_get.
  destruct (httpGet _ _ _ _); intros [= <- <-];
    (exists [HttpGet url params t]; split; [done | by constructor]).
Qed.

Lemma adds_await_post (P : Event -> Prop) url body hs t :
  P (HttpPost url body hs t) -> adds P (await_post url body hs t).
Proof.
  intros He w o w'. unfold await_post.
  destruct (httpPost _ _ _ _ _); intros [= <- <-];
    (exists [HttpPost url body hs t]; split; [done | by constructor]).
Qed.

Lemma adds_bind {A B} P (m : M A) (f : A -> M B) :
  adds P m -> (forall a, adds P (f a)) -> adds P (bind m f).
Proof.
  intros Hm Hf w o w'. unfold bind.
  destruct (m w) as [[a|e|] w1] eqn:E; destruct (Hm _ _ _ E) as (l1 & -> & F1).
  - intros E2. destruct (Hf _ _ _ _ E2) as (l2 & -> & F2).
    exists (l2 ++ l1). split; [by rewrite app_assoc | by apply Forall_app].
  - intros [= <- <-]. by exists l1.
  - intros [= <- <-]. by exists l1.
Qed.

Lemma adds_try_catch {A} P (body : M A) (h : JsError -> M A) :
  adds P body -> (forall e, adds P (h e)) -> adds P (try_catch body h).
Proof.
  intros Hb Hh w o w'. unfold try_catch.
  destruct (body w) as [[a|e|] w1] eqn:E; destruct (Hb _ _ _ E) as (l1 & -> & F1).
  - intros [= <- <-]. by exists l1.
  - intros E2. destruct (Hh _ _ _ _ E2) as (l2 & -> & F2).
    exists (l2 ++ l1). split; [by rewrite app_assoc | by apply Forall_app].
  - intros [= <- <-]. by exists l1.
Qed.

(** ** Strings *)

Lemma str_eqb_eq (a b : jsstring) : str_eqb a b = true <-> a = b.
Proof.
  revert b. induction a as [|x a IH]; intros [|y b]; simpl; try done.
  rewrite andb_true_iff, N.eqb_eq, IH. split; [intros [-> ->] | intros [= -> ->]]; done.
Qed.

Lemma str_eqb_neq (a b : jsstring) : str_eqb a b = false <-> a <> b.
Proof.
  rewrite <- str_eqb_eq. destruct (str_eqb a b); split; congruence.
Qed.

(** ** The weather adapter *)

Lemma getCityAdcode_returns cityName : returns (getCityAdcode cityName).
Proof.
  unfold getCityAdcode. apply returns_bind; [apply returns_emit | intros _].
  destruct (truthy (amapKey config)); simpl; [| apply returns_ret].
  apply returns_try_catch; [| intros; apply returns_ret].
  apply modelled_bind; [apply modelled_await_get | intros r].
  destruct (str_eqb _ _); [| apply modelled_ret].
  destruct (geocodes r) as [[|g gs]|]; try apply modelled_ret.
  destruct (truthy _); apply modelled_ret.
Qed.

Lemma resolveCityParam_returns c adcode : returns (resolveCityParam c adcode).
Proof.
  unfold resolveCityParam. apply returns_bind; [| intros; apply returns_ret].
  destruct (negb _); [apply getCityAdcode_returns | apply returns_ret].
Qed.

Lemma getWeather_returns c adcode : returns (getWeather c adcode).
Proof.
  unfold getWeather. apply returns_bind; [apply returns_emit | intros _].
  destruct (truthy (amapKey config)); simpl; [| apply returns_ret].
  apply returns_try_catch; [| intros; apply returns_ret].
  apply modelled_bind;
    [apply returns_modelled, resolveCityParam_returns | intros cp].
  apply modelled_bind; [apply modelled_await_get | intros r].
  destruct (negb _); [apply modelled_ret |].
  destruct (lives r) as [[|l ls]|]; apply modelled_ret.
Qed.

Lemma getWeatherForecast_returns c adcode : returns (getWeatherForecast c adcode).
Proof.
  unfold getWeatherForecast. apply returns_bind; [apply returns_emit | intros _].
  destruct (truthy (amapKey config)); simpl; [| apply returns_ret].
  apply returns_try_catch; [| intros; apply returns_ret].
  apply modelled_bind;
    [apply returns_modelled, resolveCityParam_returns | intros cp].
  apply modelled_bind; [apply modelled_await_get | intros r].
  destruct (negb _); [apply modelled_ret |].
  destruct (forecasts r) as [[|l ls]|]; apply modelled_ret.
Qed.





(** ** The orchestrator always resolves *)

Lemma or_str_truthy a b : truthy (Some b) = true -> truthy (Some (or_str a b)) = true.
Proof. by destruct a as [[|x l]|]. Qed.

Lemma or_str_of_truthy a b : truthy a = true -> Some (or_str a b) = a.
Proof. by destruct a as [[|x l]|]. Qed.

Lemma targetCity_truthy request : truthy (Some (targetCityOf request)) = true.
Proof. by apply or_str_truthy. Qed.

(** With a default city supplied, no extraction is attempted. *)
Lemma parseQuery_with_default cfg q t :
  truthy (Some t) = true ->
  parseQuery cfg q (Some t)
  = Returned (mkParsed (normalizeKeywords (genericFallback (cleanKeywords (trim q)))) t).
Proof.
  intros Ht. unfold parseQuery, extractCity. rewrite Ht. simpl.
  unfold or_opt. rewrite Ht. by destruct t.
Qed.

Lemma searchPoi_modelled kw c : modelled (searchPoi kw c).
Proof.
  unfold searchPoi. apply modelled_bind; [apply modelled_emit | intros _].
  destruct (negb _); [apply modelled_throw |].
  apply modelled_try_catch; [| intros; apply modelled_throw].
  apply modelled_bind; [apply modelled_await_get | intros r].
  destruct (negb _); [apply modelled_throw | apply modelled_ret].
Qed.

Lemma generateRecommendation_modelled q ps ctx :
  modelled (generateRecommendation q ps ctx).
Proof.
  unfold generateRecommendation. apply modelled_bind; [apply modelled_emit | intros _].
  destruct (negb _); [apply modelled_throw |].
  apply modelled_try_catch; [| intros; apply modelled_throw].
  apply modelled_bind; [apply modelled_await_post | intros r].
  destruct (error_message r); [apply modelled_throw |].
  destruct (negb _); [apply modelled_throw | apply modelled_ret].
Qed.

Lemma searchStage_returns kw c : returns (searchStage kw c).
Proof.
  unfold searchStage. destruct (_ && _); [| apply returns_ret].
  apply returns_try_catch; [| intros; apply returns_ret].
  apply modelled_bind; [apply searchPoi_modelled | intros ps].
  destruct (Nat.ltb _ _); [| apply modelled_ret].
  apply modelled_bind; [apply searchPoi_modelled | intros; apply modelled_ret].
Qed.

Lemma weatherStage_returns c : returns (weatherStage c).
Proof.
  unfold weatherStage. destruct (_ && _); [| apply returns_ret].
  apply returns_try_catch; [| intros; apply returns_ret].
  apply modelled_bind;
    [apply returns_modelled, getCityAdcode_returns | intros a].
  apply modelled_try_catch; [| intros; apply modelled_ret].
  apply modelled_bind; [apply returns_modelled, getWeather_returns | intros v].
  apply modelled_try_catch; [| intros; apply modelled_ret].
  apply modelled_bind;
    [apply returns_modelled, getWeatherForecast_returns | intros; apply modelled_ret].
Qed.

Lemma narrativeStage_returns request ps v fc :
  returns (narrativeStage request ps v fc).
Proof.
  unfold narrativeStage. destruct (_ && _); [| apply returns_ret].
  apply returns_try_catch; [apply generateRecommendation_modelled |].
  intros e. destruct (_ || _); apply returns_ret.
Qed.

Lemma placesStep_returns request : returns (placesStep request).
Proof.
  unfold placesStep.
  rewrite (parseQuery_with_default _ _ _ (targetCity_truthy request)).
  apply returns_bind; [intros w; by eexists _, w | intros parsed].
  apply returns_bind; [apply searchStage_returns | intros; apply returns_ret].
Qed.

Lemma getRecommendations_body_returns request :
  returns (getRecommendations_body request).
Proof.
  unfold getRecommendations_body.
  apply returns_bind; [apply placesStep_returns | intros [c ps]].
  destruct (_ && _); [apply returns_ret |].
  apply returns_bind; [apply weatherStage_returns | intros [v fc]].
  apply returns_bind; [apply narrativeStage_returns | intros; apply returns_ret].
Qed.

(** ** What each stage adds to the trace *)

Lemma adds_mono {A} (P Q : Event -> Prop) (m : M A) :
  (forall e, P e -> Q e) -> adds P m -> adds Q m.
Proof.
  intros HPQ Hm w o w' E. destruct (Hm _ _ _ E) as (l & -> & F).
  exists l. split; [done |]. eapply Forall_impl; eauto.
Qed.

Ltac adds_step :=
  match goal with
  | |- adds _ (bind _ _) => apply adds_bind; [| intros ?]
  | |- adds _ (try_catch _ _) => apply adds_try_catch; [| intros ?]
  | |- adds _ (ret _) => apply adds_ret
  | |- adds _ (throw _) => apply adds_throw
  | |- adds _ (lift _) => apply adds_lift
  | |- adds _ (emit _) => apply adds_emit; simpl; auto
  | |- adds _ (await_get _ _ _) => apply adds_await_get; simpl; auto
  | |- adds _ (await_post _ _ _ _) => apply adds_await_post; simpl; auto
  | |- adds _ (if ?b then _ else _) => destruct b
  | |- adds _ (match ?x with _ => _ end) => destruct x
  end.

Lemma searchPoi_adds kw c : adds isSearchEvent (searchPoi kw c).
Proof. unfold searchPoi. repeat adds_step. Qed.

Lemma searchStage_adds kw c : adds isSearchEvent (searchStage kw c).
Proof.
  unfold searchStage. repeat (adds_step || apply searchPoi_adds).
Qed.

Lemma placesStep_adds request : adds isSearchEvent (placesStep request).
Proof.
  unfold placesStep. repeat (adds_step || apply searchStage_adds).
Qed.

Lemma getCityAdcode_adds cityName : adds isWeatherEvent (getCityAdcode cityName).
Proof. unfold getCityAdcode. repeat adds_step. Qed.

Lemma resolveCityParam_adds c adcode : adds isWeatherEvent (resolveCityParam c adcode).
Proof.
  unfold resolveCityParam. repeat (adds_step || apply getCityAdcode_adds).
Qed.

Lemma getWeather_adds c adcode : adds isWeatherEvent (getWeather c adcode).
Proof.
  unfold getWeather. repeat (adds_step || apply resolveCityParam_adds).
Qed.

Lemma getWeatherForecast_adds c adcode :
  adds isWeatherEvent (getWeatherForecast c adcode).
Proof.
  unfold getWeatherForecast. repeat (adds_step || apply resolveCityParam_adds).
Qed.

Lemma weatherStage_adds c : adds isWeatherEvent (weatherStage c).
Proof.
  unfold weatherStage.
  repeat (adds_step || apply getCityAdcode_adds || apply getWeather_adds
          || apply getWeatherForecast_adds).
Qed.

(** ** Mock mode *)

(** C10: with mockMode true the result does not depend on any service: no
    request is sent (the trace is unchanged), items is empty, weather and
    forecast are absent, fromMock is true and the summary is the fixed
    sentence of generateDefaultSummary on an empty list. *)
Theorem mock_mode_result (request : RecommendationRequest) (w : Trace) :
  mockMode config = Some true ->
  getRecommendations request w
  = (Returned
       (mkResult
          (lit "根据您的查询" ++ [34] ++ query request ++ [34]
           ++ lit "，暂未找到相关推荐。")
          [] (Some true) None None),
     w).
Proof.
  intros Hmock.
  unfold getRecommendations, outerTry, try_catch, getRecommendations_body, placesStep.
  rewrite (parseQuery_with_default _ _ _ (targetCity_truthy request)).
  unfold bind, lift, searchStage, weatherStage, narrativeStage, isMock.
  rewrite Hmock. reflexivity.
Qed.

(** ** The short circuit on an empty place list *)

Lemma placesStep_without_key request w :
  truthy (amapKey config) = false ->
  exists c, placesStep request w = (Returned (c, []), w).
Proof.
  intros Hkey. unfold placesStep.
  rewrite (parseQuery_with_default _ _ _ (targetCity_truthy request)).
  unfold bind, lift, searchStage. rewrite Hkey, andb_false_r. by eexists.
Qed.

Lemma searchPoi_transport_failure kw c w :
  (forall w0 u ps t, exists e, httpGet w0 u ps t = inl e) ->
  exists e w', searchPoi kw c w = (Threw e, w').
Proof.
  intros Hnet. unfold searchPoi, bind, emit, try_catch, await_get, throw.
  destruct (negb _); [by eexists _, _ |].
  match goal with |- context [httpGet ?a ?b ?c ?d] =>
    destruct (Hnet a b c d) as [e ->] end.
  by eexists _, _.
Qed.

Lemma placesStep_transport_failure request w :
  (forall w0 u ps t, exists e, httpGet w0 u ps t = inl e) ->
  exists c w', placesStep request w = (Returned (c, []), w').
Proof.
  intros Hnet. unfold placesStep.
  rewrite (parseQuery_with_default _ _ _ (targetCity_truthy request)).
  unfold bind at 1, lift, bind, searchStage.
  destruct (_ && _); [| by eexists _, _].
  unfold try_catch, bind.
  match goal with |- context [searchPoi ?k ?c ?w] =>
    destruct (searchPoi_transport_failure k c w Hnet) as (e & w' & ->) end.
  by eexists _, _.
Qed.

(** C5: in live mode, when the place list is empty after the search step,
    getRecommendations returns the 'no results' summary with no items and
    fromMock false, and it stops there: the trace is the one the search
    step left, and all that step added are search calls, so neither the
    weather calls nor the narrative generation happened.  The list is empty
    in particular when no map key is configured (the search is never
    called) and when every request fails in transport. *)
Theorem empty_places_short_circuit (request : RecommendationRequest) (w : Trace) :
  default false (mockMode config) = false ->
  (forall c w1,
      placesStep request w = (Returned (c, []), w1) ->
      getRecommendations request w
      = (Returned
           (mkResult (lit "未找到相关地点，请尝试其他关键词或检查网络连接。")
                     [] (Some false) None None),
         w1)
      /\ exists added, w1 = added ++ w /\ Forall isSearchEvent added)
  /\ (truthy (amapKey config) = false ->
      exists c, placesStep request w = (Returned (c, []), w))
  /\ ((forall w0 u ps t, exists e, httpGet w0 u ps t = inl e) ->
      exists c w1, placesStep request w = (Returned (c, []), w1)).
Proof.
  intros Hlive. split; [| split].
  - intros c w1 E. split.
    + unfold getRecommendations, outerTry, try_catch, getRecommendations_body, bind.
      rewrite E. unfold isMock. rewrite Hlive. reflexivity.
    + eapply placesStep_adds, E.
  - apply placesStep_without_key.
  - apply placesStep_transport_failure.
Qed.

(** ** The merge of the two search phases *)

Lemma mergePois_spec (first second : list PoiItem) :
  mergePois first second = mergeSpec first second.
Proof.
  unfold mergePois, mergeSpec. do 2 f_equal.
  apply list_filter_iff. intros p. by rewrite elem_of_list_to_set.
Qed.

Lemma mergeSpec_length first second : (length (mergeSpec first second) <= 50)%nat.
Proof. unfold mergeSpec. rewrite length_take. lia. Qed.

Lemma filter_complement_length (P : PoiItem -> Prop) `{!forall p, Decision (P p)} l :
  (length (filter P l) + length (filter (fun p => ~ P p) l))%nat = length l.
Proof.
  induction l as [|p l IH]; [done |]. rewrite !filter_cons.
  destruct (decide (P p)), (decide (~ P p)); simpl; try lia; tauto.
Qed.

Lemma mergeSpec_three_four first second :
  length first = 3%nat -> length second = 4%nat ->
  length (sharedNames first second) = 1%nat ->
  mergeSpec first second
  = first ++ filter (fun p => name p ∉ (name <$> first)) second
  /\ length (mergeSpec first second) = 6%nat.
Proof.
  intros H1 H2 H3. unfold sharedNames in H3.
  pose proof (filter_complement_length
                (fun p => name p ∈ (name <$> first)) second) as Hc.
  assert (Hlen : length (first ++ filter (fun p => name p ∉ (name <$> first)) second)
                 = 6%nat) by (rewrite length_app; lia).
  unfold mergeSpec. rewrite take_ge by lia. done.
Qed.

Lemma bind_returned {A B} (m : M A) (f : A -> M B) w a w1 :
  m w = (Returned a, w1) -> bind m f w = f a w1.
Proof. intros E. unfold bind. by rewrite E. Qed.

(** C6: when the first search returns fewer than 5 places, the search step
    runs the second search with the bare keyword and returns the merge of
    the two lists: the first-phase list in its order, then the second-phase
    items whose name does not occur in it, in their order, cut at 50 items.
    A first-phase list of 3 and a second-phase list of 4 of which one item
    repeats a first-phase name merge to 6 items. *)
Theorem merge_two_phases (kw c : jsstring) (first second : list PoiItem)
    (w w1 w2 : Trace) :
  default false (mockMode config) = false ->
  searchPoi (augmentKeywords kw) (Some c) w = (Returned first, w1) ->
  (length first < 5)%nat ->
  searchPoi (lit "景点") (Some c) w1 = (Returned second, w2) ->
  searchStage kw c w = (Returned (mergePois first second), w2)
  /\ mergePois first second
     = take 50 (first ++ filter (fun p => name p ∉ (name <$> first)) second)
  /\ (length (mergePois first second) <= 50)%nat
  /\ (length first = 3%nat -> length second = 4%nat ->
      length (sharedNames first second) = 1%nat ->
      mergePois first second
      = first ++ filter (fun p => name p ∉ (name <$> first)) second
      /\ length (mergePois first second) = 6%nat).
Proof.
  intros Hlive E1 Hlt E2. split; [| split; [| split]].
  - unfold searchStage, isMock. rewrite Hlive.
    destruct (truthy (amapKey config)) eqn:Hkey; simpl.
    + unfold try_catch. rewrite (bind_returned _ _ _ _ _ E1).
      apply Nat.ltb_lt in Hlt. rewrite Hlt.
      by rewrite (bind_returned _ _ _ _ _ E2).
    + unfold searchPoi, bind, emit in E1. rewrite Hkey in E1. discriminate.
  - apply mergePois_spec.
  - rewrite mergePois_spec. apply mergeSpec_length.
  - rewrite mergePois_spec. apply mergeSpec_three_four.
Qed.

(** ** The place list of a result *)

Lemma bind_inv {A B} (m : M A) (f : A -> M B) w b w' :
  bind m f w = (Returned b, w') ->
  exists a w1, m w = (Returned a, w1) /\ f a w1 = (Returned b, w').
Proof.
  unfold bind. destruct (m w) as [[a|e|] w1]; try done. by exists a, w1.
Qed.

Lemma try_catch_inv {A} (body : M A) (h : JsError -> M A) w b w' :
  try_catch body h w = (Returned b, w') ->
  body w = (Returned b, w')
  \/ exists e w1, body w = (Threw e, w1) /\ h e w1 = (Returned b, w').
Proof.
  unfold try_catch. destruct (body w) as [[a|e|] w1]; try done; [by left |].
  right. by exists e, w1.
Qed.

(** ** The city searched *)

(** Without an explicit destination the search city is the request city or
    the configured default, whatever the query says. *)
Lemma placesStep_city request w c ps w1 :
  truthy (destination request) = false ->
  placesStep request w = (Returned (c, ps), w1) ->
  c = or_str (or_opt (city request) (defaultCity config)) hardDefaultCity.
Proof.
  intros Hd. unfold placesStep.
  rewrite (parseQuery_with_default _ _ _ (targetCity_truthy request)).
  unfold bind at 1, lift. cbn [pq_city keywords].
  intros (l & w2 & _ & [= <- _ _])%bind_inv.
  assert (Hor : forall x, or_opt (destination request) x = x)
    by (intros x; unfold or_opt; by rewrite Hd).
  rewrite Hor. unfold targetCityOf. rewrite Hor.
  by destruct (or_str _ hardDefaultCity).
Qed.

(** ** Area-code lookups of the weather stage *)

Lemma getCityAdcode_none cityName w :
  truthy (amapKey config) = true ->
  (forall w0 ps t, degraded geocodes (httpGet w0 geoUrl ps t)) ->
  getCityAdcode cityName w
  = (Returned None,
     HttpGet geoUrl (geoParams cityName) (timeout_or 12000)
       :: CallGetCityAdcode cityName :: w).
Proof.
  intros Hkey H. unfold getCityAdcode, bind, emit, try_catch, await_get, ret.
  rewrite Hkey. simpl. fold geoUrl. fold (geoParams cityName).
  specialize (H (CallGetCityAdcode cityName :: w) (geoParams cityName)
                (timeout_or 12000)).
  destruct (httpGet _ geoUrl _ _) as [e|r]; simpl; [done |].
  destruct (str_eqb (status r) (lit "1")) eqn:E; [| done].
  apply str_eqb_eq in E. destruct H as [H | [H | H]]; [done | |]; by rewrite H.
Qed.

Lemma getCityAdcode_some a cityName w :
  truthy (amapKey config) = true -> geocodesTo a -> truthy (Some a) = true ->
  getCityAdcode cityName w
  = (Returned (Some a),
     HttpGet geoUrl (geoParams cityName) (timeout_or 12000)
       :: CallGetCityAdcode cityName :: w).
Proof.
  intros Hkey H Ha. unfold getCityAdcode, bind, emit, try_catch, await_get, ret.
  rewrite Hkey. simpl. fold (geoParams cityName).
  destruct (H (CallGetCityAdcode cityName :: w) (geoParams cityName)
              (timeout_or 12000)) as (d & g & gs & -> & Hs & Hg & Hadc).
  simpl. rewrite Hs, Hg, Hadc, Ha. reflexivity.
Qed.

Lemma resolveCityParam_given a c w :
  truthy (Some a) = true -> resolveCityParam c (Some a) w = (Returned a, w).
Proof.
  intros Ha. unfold resolveCityParam, bind, ret. by destruct a.
Qed.

Lemma resolveCityParam_lookup_none c w :
  truthy (amapKey config) = true ->
  (forall w0 ps t, degraded geocodes (httpGet w0 geoUrl ps t)) ->
  resolveCityParam c None w
  = (Returned c,
     HttpGet geoUrl (geoParams c) (timeout_or 12000)
       :: CallGetCityAdcode c :: w).
Proof.
  intros Hkey H. unfold resolveCityParam. simpl.
  by rewrite (bind_returned _ _ _ _ _ (getCityAdcode_none c w Hkey H)).
Qed.

Lemma getWeather_trace c adcode w cp w1 :
  truthy (amapKey config) = true ->
  resolveCityParam c adcode (CallGetWeather c adcode :: w) = (Returned cp, w1) ->
  exists v,
    getWeather c adcode w
    = (Returned v,
       HttpGet weatherUrl (weatherParams cp "base") (timeout_or 12000) :: w1).
Proof.
  intros Hkey E. unfold getWeather, bind at 1, emit. rewrite Hkey. simpl.
  unfold try_catch. rewrite (bind_returned _ _ _ _ _ E).
  unfold bind, await_get, ret.
  destruct (httpGet _ _ _ _) as [e|r]; simpl; [by eexists |].
  destruct (negb _); [by eexists |].
  destruct (lives r) as [[|x xs]|]; by eexists.
Qed.

Lemma getWeatherForecast_trace c adcode w cp w1 :
  truthy (amapKey config) = true ->
  resolveCityParam c adcode (CallGetWeatherForecast c adcode :: w)
  = (Returned cp, w1) ->
  exists v,
    getWeatherForecast c adcode w
    = (Returned v,
       HttpGet weatherUrl (weatherParams cp "all") (timeout_or 12000) :: w1).
Proof.
  intros Hkey E. unfold getWeatherForecast, bind at 1, emit. rewrite Hkey. simpl.
  unfold try_catch. rewrite (bind_returned _ _ _ _ _ E).
  unfold bind, await_get, ret.
  destruct (httpGet _ _ _ _) as [e|r]; simpl; [by eexists |].
  destruct (negb _); [by eexists |].
  destruct (forecasts r) as [[|x xs]|]; by eexists.
Qed.

Lemma weatherStage_trace c w a0 w0 cpw ww cpf wf :
  default false (mockMode config) = false ->
  truthy (amapKey config) = true -> truthy (Some c) = true ->
  getCityAdcode c w = (Returned a0, w0) ->
  resolveCityParam c a0 (CallGetWeather c a0 :: w0) = (Returned cpw, ww) ->
  resolveCityParam c a0
    (CallGetWeatherForecast c a0
       :: HttpGet weatherUrl (weatherParams cpw "base") (timeout_or 12000) :: ww)
  = (Returned cpf, wf) ->
  exists v,
    weatherStage c w
    = (Returned v,
       HttpGet weatherUrl (weatherParams cpf "all") (timeout_or 12000) :: wf).
Proof.
  intros Hlive Hkey Hc E0 Ew Ef. unfold weatherStage, isMock.
  rewrite Hlive, Hkey, Hc. simpl. unfold try_catch at 1.
  rewrite (bind_returned _ _ _ _ _ E0). unfold try_catch at 1.
  destruct (getWeather_trace _ _ _ _ _ Hkey Ew) as [v Ev].
  rewrite (bind_returned _ _ _ _ _ Ev). unfold try_catch.
  destruct (getWeatherForecast_trace _ _ _ _ _ Hkey Ef) as [f Ef'].
  rewrite (bind_returned _ _ _ _ _ Ef'). by eexists.
Qed.

(** X6: in live mode with a map key, a weather stage whose geocoding
    finds an area code looks it up once and sends both weather requests
    with that code; when the geocoding finds none, getWeather and
    getWeatherForecast each repeat the lookup, so the stage enters
    getCityAdcode three times and asks for the weather by city name. *)
Theorem weatherStage_lookups (c : jsstring) (w : Trace) :
  default false (mockMode config) = false ->
  truthy (amapKey config) = true -> truthy (Some c) = true ->
  (forall a, truthy (Some a) = true -> geocodesTo a ->
     exists v,
       weatherStage c w
       = (Returned v,
          [HttpGet weatherUrl (weatherParams a "all") (timeout_or 12000);
           CallGetWeatherForecast c (Some a);
           HttpGet weatherUrl (weatherParams a "base") (timeout_or 12000);
           CallGetWeather c (Some a);
           HttpGet geoUrl (geoParams c) (timeout_or 12000);
           CallGetCityAdcode c] ++ w)
       /\ adcodeLookups (weatherStage c w).2 = S (adcodeLookups w))
  /\ ((forall w0 ps t, degraded geocodes (httpGet w0 geoUrl ps t)) ->
      exists v,
        weatherStage c w
        = (Returned v,
           [HttpGet weatherUrl (weatherParams c "all") (timeout_or 12000);
            HttpGet geoUrl (geoParams c) (timeout_or 12000);
            CallGetCityAdcode c;
            CallGetWeatherForecast c None;
            HttpGet weatherUrl (weatherParams c "base") (timeout_or 12000);
            HttpGet geoUrl (geoParams c) (timeout_or 12000);
            CallGetCityAdcode c;
            CallGetWeather c None;
            HttpGet geoUrl (geoParams c) (timeout_or 12000);
            CallGetCityAdcode c] ++ w)
        /\ adcodeLookups (weatherStage c w).2 = S (S (S (adcodeLookups w)))).
Proof.
  intros Hlive Hkey Hc. split.
  - intros a Ha Hgeo.
    edestruct (weatherStage_trace c w) as [v E]; try done.
    + by apply getCityAdcode_some.
    + by apply resolveCityParam_given.
    + by apply resolveCityParam_given.
    + exists v. by rewrite E.
  - intros Hdeg.
    edestruct (weatherStage_trace c w) as [v E]; try done.
    + by apply getCityAdcode_none.
    + by apply resolveCityParam_lookup_none.
    + by apply resolveCityParam_lookup_none.
    + exists v. by rewrite E.
Qed.

(** ** Outcomes of the place search and of geocoding *)

Lemma or_str_nonempty a b : b <> [] -> or_str a b <> [].
Proof. by destruct a as [[|x l]|]. Qed.

Lemma toPoiItem_names sc (l : list AmapPoi) :
  name <$> (toPoiItem sc <$> l) = poi_name <$> l.
Proof. by rewrite <- list_fmap_compose. Qed.

(** X7: searchPoi without a map key throws before any request; with a key
    it sends one request to place/text carrying the keywords and the city
    (the given city, else the configured default, else '北京'); what it
    returns are the places of a reply with status '1', name by name and in
    order, each marked with that city; everything it throws has a message
    that starts with 'POI搜索失败: '. *)
Theorem searchPoi_outcomes (kw : jsstring) (c : option jsstring) (w : Trace) :
  (truthy (amapKey config) = false ->
   searchPoi kw c w
   = (Threw (mkError (lit "高德地图密钥未配置")), CallSearchPoi kw c :: w))
  /\ (truthy (amapKey config) = true ->
      exists params o,
        searchPoi kw c w
        = (o, HttpGet (amapBase ++ lit "/place/text") params (timeout_or 12000)
                :: CallSearchPoi kw c :: w)
        /\ ("keywords"%string, kw) ∈ params
        /\ ("city"%string,
            or_str (or_opt c (defaultCity config)) hardDefaultCity) ∈ params
        /\ match o with
           | Returned ps =>
             exists r,
               httpGet (CallSearchPoi kw c :: w) (amapBase ++ lit "/place/text")
                       params (timeout_or 12000) = inr r
               /\ status r = lit "1"
               /\ name <$> ps = poi_name <$> default [] (pois r)
               /\ Forall (fun p => poi_city p
                            = Some (or_str (or_opt c (defaultCity config))
                                           hardDefaultCity)) ps
           | Threw e =>
             exists m, message e = lit "POI搜索失败: " ++ m /\ m <> []
           | Unmodelled => False
           end).
Proof.
  split; intros Hkey.
  - unfold searchPoi, bind, emit, throw. by rewrite Hkey.
  - unfold searchPoi, bind at 1, emit. rewrite Hkey. simpl.
    unfold try_catch, bind, await_get, throw, ret.
    eexists. destruct (httpGet _ _ _ _) as [e|r] eqn:E; simpl.
    + eexists. split; [reflexivity |].
      split; [apply list_elem_of_further, list_elem_of_here |].
      split; [do 2 apply list_elem_of_further; apply list_elem_of_here |].
      eexists. split; [reflexivity |]. by destruct (message e).
    + destruct (str_eqb (status r) (lit "1")) eqn:Es; simpl.
      * eexists. split; [reflexivity |].
        split; [apply list_elem_of_further, list_elem_of_here |].
        split; [do 2 apply list_elem_of_further; apply list_elem_of_here |].
        exists r. split; [done |]. split; [by apply str_eqb_eq |].
        split; [apply toPoiItem_names |].
        apply Forall_fmap, Forall_forall. by intros p _.
      * eexists. split; [reflexivity |].
        split; [apply list_elem_of_further, list_elem_of_here |].
        split; [do 2 apply list_elem_of_further; apply list_elem_of_here |].
        eexists. split; [reflexivity |]. done.
Qed.

(** X8: geocode without a map key throws (where getCityAdcode returns
    null); with a key it never throws: it sends one request to geocode/geo
    and returns null when the transport fails, the status is not '1' or no
    result comes back, and the location and formatted address of the first
    result otherwise. *)
Theorem geocode_outcomes (addr : jsstring) (c : option jsstring) (w : Trace) :
  (truthy (amapKey config) = false ->
   geocode addr c w = (Threw (mkError (lit "高德地图密钥未配置")), w)
   /\ (getCityAdcode addr w).1 = Returned None)
  /\ (truthy (amapKey config) = true ->
      exists params v,
        geocode addr c w
        = (Returned v, HttpGet geoUrl params (timeout_or 12000) :: w)
        /\ (degraded geocodes (httpGet w geoUrl params (timeout_or 12000)) ->
            v = None)
        /\ (forall d g gs,
              httpGet w geoUrl params (timeout_or 12000) = inr d ->
              status d = lit "1" -> geocodes d = Some (g :: gs) ->
              v = Some (geo_location g, geo_formatted_address g))).
Proof.
  split; intros Hkey.
  - unfold geocode, getCityAdcode, bind, emit, throw, ret. by rewrite Hkey.
  - unfold geocode. rewrite Hkey. simpl.
    unfold try_catch, bind, await_get, ret. fold geoUrl.
    eexists. destruct (httpGet _ _ _ _) as [e|r] eqn:E; simpl.
    + eexists. split; [reflexivity |]. rewrite E. split; [done |]. by intros.
    + destruct (str_eqb (status r) (lit "1")) eqn:Es; simpl.
      * apply str_eqb_eq in Es.
        destruct (geocodes r) as [[|g gs]|] eqn:Eg; eexists;
          (split; [reflexivity |]); rewrite E; simpl; split.
        -- done.
        -- intros d g' gs' [= <-] _. congruence.
        -- intros [H | [H | H]]; congruence.
        -- intros d g' gs' [= <-] _. congruence.
        -- done.
        -- intros d g' gs' [= <-] _. congruence.
      * eexists. split; [reflexivity |]. rewrite E. split; [done |].
        intros d g gs [= <-] Hs. apply str_eqb_neq in Es. done.
Qed.

(** ** The narrative request *)

Lemma contains_refl (s : jsstring) : contains s s.
Proof. exists [], []. by rewrite app_nil_r. Qed.

Lemma contains_app (a s b p : jsstring) :
  contains s p -> contains (a ++ s ++ b) p.
Proof.
  intros (x & y & ->). exists (a ++ x), (y ++ b). by rewrite <- !app_assoc.
Qed.

Lemma contains_app_l (s b p : jsstring) : contains s p -> contains (s ++ b) p.
Proof. intros H. by apply (contains_app [] s b p). Qed.

Lemma contains_app_r (a s p : jsstring) : contains s p -> contains (a ++ s) p.
Proof.
  intros H. pose proof (contains_app a s [] p H) as H'.
  by rewrite app_nil_r in H'.
Qed.

Lemma includes_app (a s p : jsstring) :
  includes s p = true -> includes (a ++ s) p = true.
Proof.
  intros H. induction a as [|x a IH]; [done |].
  change (includes ((x :: a) ++ s) p)
    with (starts_with (x :: a ++ s) p || includes (a ++ s) p).
  by rewrite IH, orb_true_r.
Qed.

Lemma renderPoi_name index poi : contains (renderPoi index poi) (name poi).
Proof.
  unfold renderPoi.
  assert (H0 : contains (nat_to_string (index + 1) ++ lit ". " ++ name poi)
                        (name poi))
    by (do 2 apply contains_app_r; apply contains_refl).
  destruct (truthy (address poi)), (distance poi);
    first [exact H0
          | apply contains_app_l;
            first [exact H0 | apply contains_app_l; exact H0]].
Qed.

Lemma listing_names (f : nat -> PoiItem -> jsstring) sep ps p :
  (forall i x, contains (f i x) (name x)) ->
  p ∈ ps -> contains (join sep (imap f ps)) (name p).
Proof.
  revert f. induction ps as [|x ps IH]; intros f Hf Hin; [by inv Hin |].
  rewrite imap_cons. apply elem_of_cons in Hin as [-> | Hin].
  - destruct ps as [|y ps]; [apply Hf |].
    rewrite imap_cons.
    change (contains (f 0%nat x ++ sep ++ join sep (f 1%nat y :: imap (f ∘ S ∘ S) ps))
                     (name x)).
    apply contains_app_l, Hf.
  - specialize (IH (f ∘ S) (fun i => Hf (S i)) Hin).
    destruct ps as [|y ps]; [by inv Hin |].
    rewrite imap_cons in *.
    change (contains (f 0%nat x ++ sep
                      ++ join sep ((f ∘ S) 0%nat y :: imap ((f ∘ S) ∘ S) ps))
                     (name p)).
    by do 2 apply contains_app_r.
Qed.

(** X9: generateRecommendation without a model key throws before any
    request; with a key it sends one chat request whose timeout is the
    configured network timeout, or 60000 when that is absent or 0, with web
    search on unless the configuration sets it to false, and whose user
    message holds the query and the name of every place of the list; it
    returns only a non-empty text, and everything it throws has a message
    that starts with '大模型调用失败: '. *)
Theorem generateRecommendation_outcomes
    (userQuery : jsstring) (ps : list PoiItem) (context : option jsstring)
    (w : Trace) :
  (truthy (llmApiKey config) = false ->
   generateRecommendation userQuery ps context w
   = (Threw (mkError (lit "大模型密钥未配置")),
      CallGenerateRecommendation userQuery ps context :: w))
  /\ (truthy (llmApiKey config) = true ->
      exists url body hs o sys usr,
        generateRecommendation userQuery ps context w
        = (o, HttpPost url body hs (timeout_or 60000)
                :: CallGenerateRecommendation userQuery ps context :: w)
        /\ messages body = [mkMessage "system" sys; mkMessage "user" usr]
        /\ contains usr userQuery
        /\ (forall p, p ∈ ps -> contains usr (name p))
        /\ (enable_search body = false <-> llmEnableSearch config = Some false)
        /\ match o with
           | Returned text => text <> []
           | Threw e => exists m, message e = lit "大模型调用失败: " ++ m /\ m <> []
           | Unmodelled => False
           end).
Proof.
  split; intros Hkey.
  - unfold generateRecommendation, bind, emit, throw. by rewrite Hkey.
  - unfold generateRecommendation, bind at 1, emit. rewrite Hkey.
    cbn [negb]. cbv iota.
    unfold try_catch, bind, await_post, throw, ret.
    do 3 eexists.
    destruct (httpPost _ _ _ _ _) as [e|r] eqn:E;
      [| destruct (error_message r) as [msg|] eqn:Em;
         [| destruct (negb (truthy (first_choice_content r))) eqn:Ec]];
      (eexists; do 2 eexists; split; [reflexivity |]);
      (split; [reflexivity |]);
      (split; [apply contains_app_r, contains_app_l, contains_refl |]);
      (split; [intros p Hp; do 7 apply contains_app_r; apply contains_app_l;
               apply listing_names; [apply renderPoi_name | exact Hp] |]);
      (split; [cbn [enable_search];
               destruct (llmEnableSearch config) as [[|]|]; by split |]).
    + eexists. split; [reflexivity |]. by destruct (message e).
    + eexists. split; [reflexivity |]. done.
    + eexists. split; [reflexivity |]. done.
    + apply negb_false_iff in Ec.
      by destruct (first_choice_content r) as [[|x l]|].
Qed.

(** ** Fallbacks of the narrative stage *)



(** ** The default summary *)

Lemma generateDefaultSummary_nonempty ps q : generateDefaultSummary ps q <> [].
Proof.
  unfold generateDefaultSummary. destruct (Nat.eqb _ _).
  - intros H. apply (f_equal length) in H. rewrite length_app in H.
    vm_compute (length (lit "根据您的查询")) in H. simpl in H. lia.
  - intros H. apply (f_equal length) in H. rewrite length_app in H.
    vm_compute (length (lit "为您找到以下推荐：")) in H. simpl in H. lia.
Qed.

(** X11: the default summary is never empty; for a non-empty list it holds
    the name of each of the first five places, it depends on the list only
    through these five and the length, and when the list is longer than
    five it ends with the sentence that counts the places left out. *)
Theorem generateDefaultSummary_shape (ps : list PoiItem) (q : jsstring) :
  generateDefaultSummary ps q <> []
  /\ (forall p, p ∈ take 5 ps ->
        contains (generateDefaultSummary ps q) (name p))
  /\ ((5 < length ps)%nat ->
      exists pre,
        generateDefaultSummary ps q
        = pre ++ lit "还有" ++ nat_to_string (length ps - 5)
          ++ lit "个结果未显示。")
  /\ (forall ps', take 5 ps' = take 5 ps -> length ps' = length ps ->
        generateDefaultSummary ps' q = generateDefaultSummary ps q).
Proof.
  split; [apply generateDefaultSummary_nonempty |]. split; [| split].
  - intros p Hp. unfold generateDefaultSummary.
    destruct ps as [|x ps]; [by inv Hp |].
    change (Nat.eqb (length (x :: ps)) 0) with false. cbv iota.
    do 3 apply contains_app_r. apply contains_app_l.
    apply listing_names; [apply renderPoi_name | exact Hp].
  - intros Hlen. unfold generateDefaultSummary.
    destruct (Nat.eqb (length ps) 0) eqn:E0; [apply Nat.eqb_eq in E0; lia |].
    apply Nat.ltb_lt in Hlen. rewrite Hlen.
    eexists. by rewrite !app_assoc.
  - intros ps' Ht Hl. unfold generateDefaultSummary. by rewrite Ht, Hl.
Qed.

(** ** Keyword augmentation *)

Lemma truthy_app_r (a b : jsstring) :
  truthy (Some b) = true -> truthy (@Some jsstring (a ++ b)) = true.
Proof. by destruct a. Qed.

(** X12: the keywords sent to the first search are never empty and always
    mention '景点' or '旅游', and augmenting twice changes nothing more. *)
Theorem augmentKeywords_mentions (kw : jsstring) :
  augmentKeywords kw <> []
  /\ includes (augmentKeywords kw) (lit "景点")
     || includes (augmentKeywords kw) (lit "旅游") = true
  /\ augmentKeywords (augmentKeywords kw) = augmentKeywords kw.
Proof.
  unfold augmentKeywords at 1 2 3 5 6.
  destruct (negb (truthy (Some kw)) || str_eqb kw genericKeywords) eqn:E1.
  { split; [by vm_compute |]. split; by vm_compute. }
  destruct (negb (includes kw (lit "景点")) && negb (includes kw (lit "旅游")))
    eqn:E2.
  - assert (Hinc : includes (kw ++ lit "|景点|旅游景点") (lit "景点") = true)
      by (apply includes_app; by vm_compute).
    split; [by destruct kw |]. split; [by rewrite Hinc |].
    unfold augmentKeywords.
    rewrite (truthy_app_r kw (lit "|景点|旅游景点") eq_refl). cbn [negb orb].
    destruct (str_eqb (kw ++ lit "|景点|旅游景点") genericKeywords) eqn:E3.
    + apply str_eqb_eq in E3. apply (f_equal length) in E3.
      rewrite length_app in E3.
      vm_compute (length (lit "|景点|旅游景点")) in E3.
      vm_compute (length genericKeywords) in E3. lia.
    + by rewrite Hinc.
  - apply orb_false_iff in E1 as [E1 E1'].
    split; [by destruct kw |]. split.
    + destruct (includes kw (lit "景点")), (includes kw (lit "旅游")); done.
    + unfold augmentKeywords. by rewrite E1, E1', E2.
Qed.

(** ** The city searched and the shape of a result *)

Lemma searchPoi_searchesIn kw c : adds (searchesIn c) (searchPoi kw (Some c)).
Proof. unfold searchPoi. repeat adds_step. Qed.

Lemma searchStage_searchesIn kw c : adds (searchesIn c) (searchStage kw c).
Proof.
  unfold searchStage. repeat (adds_step || apply searchPoi_searchesIn).
Qed.

Lemma placesStep_target request w c ps w1 :
  placesStep request w = (Returned (c, ps), w1) ->
  c = targetCityOf request
  /\ exists kw, searchStage kw c w = (Returned ps, w1).
Proof.
  unfold placesStep.
  rewrite (parseQuery_with_default _ _ _ (targetCity_truthy request)).
  unfold bind at 1, lift. cbn [pq_city keywords].
  intros (l & w2 & E & [= <- <- <-])%bind_inv.
  assert (Hc : or_str (or_opt (destination request)
                              (Some (targetCityOf request)))
                      (targetCityOf request) = targetCityOf request).
  { pose proof (targetCity_truthy request) as Ht. unfold targetCityOf in *.
    unfold or_opt at 1.
    destruct (truthy (destination request)) eqn:Hd.
    - unfold or_opt at 2 3. rewrite Hd.
      by destruct (destination request) as [[|x d]|].
    - by destruct (or_str _ hardDefaultCity). }
  rewrite Hc in *. split; [done |]. by eexists.
Qed.

(** X13: the city of the place search is the request destination, else
    the request city, else the configured default, else '北京': it is
    never empty, it does not depend on the query, and every search a run
    makes is in that city. *)
Theorem search_city_precedence (request : RecommendationRequest)
    (w w1 : Trace) (c : jsstring) (ps : list PoiItem) :
  placesStep request w = (Returned (c, ps), w1) ->
  c = or_str (or_opt (or_opt (destination request) (city request))
                     (defaultCity config))
             (lit "北京")
  /\ c <> []
  /\ exists added, w1 = added ++ w /\ Forall (searchesIn c) added.
Proof.
  intros E. destruct (placesStep_target _ _ _ _ _ E) as [Hc [kw Es]].
  split; [exact Hc |]. split.
  - pose proof (targetCity_truthy request) as Ht. rewrite <- Hc in Ht.
    by destruct c.
  - eapply searchStage_searchesIn, Es.
Qed.

(** ** What every result satisfies *)

Lemma generateRecommendation_text q ps ctx w t w' :
  generateRecommendation q ps ctx w = (Returned t, w') -> t <> [].
Proof.
  unfold generateRecommendation, bind at 1, emit.
  destruct (negb (truthy (llmApiKey config))); [done |].
  unfold try_catch, bind, await_post, throw, ret.
  destruct (httpPost _ _ _ _ _) as [e|r]; [done |].
  destruct (error_message r); [done |].
  destruct (first_choice_content r) as [[|x l]|]; try done.
  by intros [= <- _].
Qed.

Lemma narrativeStage_text request ps v fc w t w' :
  narrativeStage request ps v fc w = (Returned t, w') -> t <> [].
Proof.
  unfold narrativeStage.
  destruct (_ && _);
    [| intros [= <- _]; apply generateDefaultSummary_nonempty].
  intros [E | (e & w1 & _ & E)]%try_catch_inv.
  - eapply generateRecommendation_text, E.
  - destruct (_ || _); injection E as <- _;
      [| apply generateDefaultSummary_nonempty].
    intros H. apply app_eq_nil in H as [H _].
    by apply generateDefaultSummary_nonempty in H.
Qed.

Lemma searchStage_found kw c w ps w' :
  searchStage kw c w = (Returned ps, w') -> ps <> [] ->
  default false (mockMode config) = false /\ truthy (amapKey config) = true.
Proof.
  unfold searchStage, isMock.
  destruct (default false (mockMode config)), (truthy (amapKey config));
    simpl; try (by intros [= <- _]). done.
Qed.

Lemma weatherStage_mock c w :
  default false (mockMode config) = true ->
  weatherStage c w = (Returned (None, None), w).
Proof. intros H. unfold weatherStage, isMock. by rewrite H. Qed.

Lemma result_facts request w r w' :
  getRecommendations request w = (Returned r, w') ->
  summary r <> []
  /\ fromMock r = Some (default false (mockMode config))
  /\ (items r = [] -> default false (mockMode config) = false ->
      summary r = noResultsSummary
      /\ weather r = None /\ weatherForecast r = None)
  /\ (items r <> [] ->
      default false (mockMode config) = false
      /\ truthy (amapKey config) = true)
  /\ (weather r <> None \/ weatherForecast r <> None -> items r <> []).
Proof.
  unfold getRecommendations, outerTry. intros E.
  apply try_catch_inv in E as [E | (e & w1 & E & _)].
  2: { destruct (getRecommendations_body_returns request w) as (a & w2 & E').
       congruence. }
  unfold getRecommendations_body in E.
  apply bind_inv in E as ([c ps] & w1 & Ep & E).
  destruct (placesStep_target _ _ _ _ _ Ep) as [_ [kw Es]].
  unfold isMock in E.
  destruct (Nat.eqb (length ps) 0 && negb (default false (mockMode config)))
    eqn:Eb.
  - injection E as <- _. apply andb_true_iff in Eb as [_ Hm].
    apply negb_true_iff in Hm. rewrite Hm. simpl.
    split; [by vm_compute |]. repeat split; try done.
    intros [H | H]; done.
  - apply bind_inv in E as ([v fc] & w2 & Ew & E).
    apply bind_inv in E as (text & w3 & En & [= <- _]). simpl.
    split; [eapply narrativeStage_text, En |]. split; [done |].
    apply andb_false_iff in Eb. split; [| split].
    + intros -> Hlive. destruct Eb as [Eb | Eb]; [done |].
      by rewrite Hlive in Eb.
    + intros Hne. eapply searchStage_found; eauto.
    + intros Hw Hnil. subst ps. destruct Eb as [Eb | Eb]; [done |].
      apply negb_false_iff in Eb. rewrite (weatherStage_mock _ _ Eb) in Ew.
      injection Ew as <- <- _. by destruct Hw.
Qed.

Lemma noResultsSummary_text :
  noResultsSummary = lit "未找到相关地点，请尝试其他关键词或检查网络连接。".
Proof. reflexivity. Qed.

(** X14: in every result of getRecommendations the summary is not empty
    and fromMock tells whether the configuration is in mock mode; in live
    mode an empty item list comes with the 'no results' summary and without
    weather; items are only ever present in live mode with a map key, and
    weather only together with items. *)
Theorem result_invariants (request : RecommendationRequest) (w w' : Trace)
    (r : RecommendationResult) :
  getRecommendations request w = (Returned r, w') ->
  summary r <> []
  /\ fromMock r = Some (default false (mockMode config))
  /\ (items r = [] -> default false (mockMode config) = false ->
      summary r = lit "未找到相关地点，请尝试其他关键词或检查网络连接。"
      /\ weather r = None /\ weatherForecast r = None)
  /\ (items r <> [] ->
      default false (mockMode config) = false
      /\ truthy (amapKey config) = true)
  /\ (weather r <> None \/ weatherForecast r <> None -> items r <> []).
Proof.
  intros E. rewrite <- noResultsSummary_text.
  exact (result_facts request w r w' E).
Qed.

Lemma getRecommendations_in_mock request w :
  default false (mockMode config) = true ->
  getRecommendations request w
  = (Returned
       (mkResult (generateDefaultSummary [] (query request)) [] (Some true)
                 None None),
     w).
Proof.
  intros Hmock.
  unfold getRecommendations, outerTry, try_catch, getRecommendations_body, placesStep.
  rewrite (parseQuery_with_default _ _ _ (targetCity_truthy request)).
  unfold bind, lift, searchStage, weatherStage, narrativeStage, isMock.
  rewrite Hmock. reflexivity.
Qed.

(** ** Timeouts of the requests *)

Lemma getCityAdcode_timeouts cityName : adds timeoutsAre (getCityAdcode cityName).
Proof. unfold getCityAdcode. repeat adds_step. Qed.

Lemma resolveCityParam_timeouts c adcode :
  adds timeoutsAre (resolveCityParam c adcode).
Proof.
  unfold resolveCityParam. repeat (adds_step || apply getCityAdcode_timeouts).
Qed.

Lemma getRecommendations_timeouts request :
  adds timeoutsAre (getRecommendations request).
Proof.
  unfold getRecommendations, outerTry, getRecommendations_body, placesStep, searchStage,
    weatherStage, narrativeStage, searchPoi, getWeather, getWeatherForecast,
    generateRecommendation.
  repeat (adds_step || apply getCityAdcode_timeouts
          || apply resolveCityParam_timeouts).
Qed.

(** ** The place list of a result *)

Lemma placesStep_parts request w c ps w1 :
  placesStep request w = (Returned (c, ps), w1) ->
  c = targetCityOf request
  /\ exists kw,
       parseQuery config (query request) (Some (targetCityOf request))
       = Returned (mkParsed kw (targetCityOf request))
       /\ searchStage kw c w = (Returned ps, w1).
Proof.
  intros E. destruct (placesStep_target _ _ _ _ _ E) as [Hc _].
  split; [done |]. revert E. unfold placesStep.
  rewrite (parseQuery_with_default _ _ _ (targetCity_truthy request)).
  unfold bind at 1, lift. cbn [pq_city keywords].
  intros (l & w2 & E & [= <- <- <-])%bind_inv.
  eexists. split; [reflexivity |]. exact E.
Qed.

Lemma merge_keeps_first (first second : list PoiItem) :
  (length first < 5)%nat ->
  mergePois first second
  = first ++ take (50 - length first)
                  (filter (fun p => name p ∉ (name <$> first)) second).
Proof.
  intros H. rewrite mergePois_spec. unfold mergeSpec.
  rewrite take_app. by rewrite take_ge by lia.
Qed.

Lemma new_names_kept (first second : list PoiItem) (k : nat) :
  Forall (fun p => name p ∉ (name <$> first))
         (take k (filter (fun p => name p ∉ (name <$> first)) second)).
Proof.
  apply Forall_take, Forall_forall. intros p Hp.
  by apply list_elem_of_filter in Hp as [Hp _].
Qed.

Lemma merged_names_distinct (first more : list PoiItem) :
  Forall (fun p => name p ∉ (name <$> first)) more ->
  NoDup (name <$> first ++ more)
  <-> NoDup (name <$> first) /\ NoDup (name <$> more).
Proof.
  intros H. rewrite fmap_app, NoDup_app. split.
  - by intros (H1 & _ & H2).
  - intros [H1 H2]. split; [done |]. split; [| done].
    intros x Hx (p & -> & Hp)%list_elem_of_fmap.
    rewrite Forall_forall in H. by apply (H p Hp).
Qed.

Lemma searchStage_phases kw c w l w' :
  searchStage kw c w = (Returned l, w') ->
  l = []
  \/ exists first w1,
       searchPoi (augmentKeywords kw) (Some c) w = (Returned first, w1)
       /\ ((5 <= length first)%nat /\ l = first
           \/ (length first < 5)%nat
              /\ exists second w2,
                   searchPoi (lit "景点") (Some c) w1 = (Returned second, w2)
                   /\ l = mergePois first second).
Proof.
  unfold searchStage.
  destruct (_ && _); [| intros [= <- _]; by left].
  intros [E | (e & w1 & _ & [= <- _])]%try_catch_inv; [| by left].
  apply bind_inv in E as (first & w1 & E1 & E).
  right. exists first, w1. split; [done |].
  destruct (Nat.ltb (length first) 5) eqn:El.
  - apply Nat.ltb_lt in El. right. split; [done |].
    apply bind_inv in E as (second & w2 & E2 & [= <- _]). by exists second, w2.
  - apply Nat.ltb_ge in El. left. by injection E as <- _.
Qed.

Lemma generateRecommendation_gets q ps ctx :
  adds (narrativeGets ps) (generateRecommendation q ps ctx).
Proof. unfold generateRecommendation. repeat adds_step. Qed.

Lemma narrativeStage_gets request ps v fc :
  adds (narrativeGets ps) (narrativeStage request ps v fc).
Proof.
  unfold narrativeStage.
  repeat (adds_step || apply generateRecommendation_gets).
Qed.

Lemma search_event_gets l e : isSearchEvent e -> narrativeGets l e.
Proof. by destruct e. Qed.

Lemma weather_event_gets l e : isWeatherEvent e -> narrativeGets l e.
Proof. by destruct e. Qed.

Lemma getRecommendations_body_gets request w r w' :
  getRecommendations_body request w = (Returned r, w') ->
  exists added, w' = added ++ w /\ Forall (narrativeGets (items r)) added.
Proof.
  unfold getRecommendations_body. intros E.
  apply bind_inv in E as ([c l] & w1 & Ep & E).
  destruct (placesStep_adds request _ _ _ Ep) as (a1 & -> & H1).
  destruct (_ && _).
  - injection E as <- <-. exists a1. split; [done |].
    eapply Forall_impl; [exact H1 | apply search_event_gets].
  - apply bind_inv in E as ([v fc] & w2 & Ew & E).
    destruct (weatherStage_adds c _ _ _ Ew) as (a2 & -> & H2).
    apply bind_inv in E as (text & w3 & En & [= <- <-]).
    destruct (narrativeStage_gets request l v fc _ _ _ En) as (a3 & -> & H3).
    exists (a3 ++ a2 ++ a1). split; [by rewrite !app_assoc |].
    cbn [items]. rewrite !Forall_app. split; [done |].
    split; (eapply Forall_impl; [eassumption |]);
      [apply weather_event_gets | apply search_event_gets].
Qed.

(** C3, as the code has it.  The items of a result are the list every call
    of the narrative stage is handed.  They are empty, or come from the
    first search of the run: when that one finds 5 places or more they are
    its places as they are, neither cut nor compared; when it finds fewer,
    they are its places followed by those of the second search whose name
    is not among them, cut so that at most 50 remain, and their names are
    pairwise distinct exactly when those of the first search are and those
    of the places kept from the second are. *)
Theorem items_cap_and_distinct_by_phase
    (request : RecommendationRequest) (w w' : Trace) (r : RecommendationResult) :
  getRecommendations request w = (Returned r, w') ->
  (exists added, w' = added ++ w /\ Forall (narrativeGets (items r)) added)
  /\ (items r = []
      \/ exists kw first w1,
           parseQuery config (query request) (Some (targetCityOf request))
           = Returned (mkParsed kw (targetCityOf request))
           /\ searchPoi (augmentKeywords kw) (Some (targetCityOf request)) w
              = (Returned first, w1)
           /\ ((5 <= length first)%nat /\ items r = first
               \/ (length first < 5)%nat
                  /\ exists second w2,
                       searchPoi (lit "景点") (Some (targetCityOf request)) w1
                       = (Returned second, w2)
                       /\ items r
                          = first
                            ++ take (50 - length first)
                                 (filter (fun p => name p ∉ (name <$> first))
                                         second)
                       /\ (length (items r) <= 50)%nat
                       /\ (NoDup (name <$> items r)
                           <-> NoDup (name <$> first)
                               /\ NoDup (name <$>
                                    take (50 - length first)
                                      (filter
                                         (fun p => name p ∉ (name <$> first))
                                         second))))).
Proof.
  unfold getRecommendations, outerTry. intros E.
  apply try_catch_inv in E as [E | (e & w1 & E & _)].
  2: { destruct (getRecommendations_body_returns request w) as (a & w2 & E').
       congruence. }
  split; [exact (getRecommendations_body_gets request _ _ _ E) |].
  unfold getRecommendations_body in E.
  apply bind_inv in E as ([c l] & w1 & Ep & E).
  destruct (placesStep_parts _ _ _ _ _ Ep) as [-> (kw & Epq & Es)].
  assert (Hitems : items r = [] \/ items r = l).
  { destruct (_ && _); [injection E as <- _; by left |].
    apply bind_inv in E as ([v fc] & w2 & _ & E).
    apply bind_inv in E as (text & w3 & _ & [= <- _]). by right. }
  destruct Hitems as [H | H]; [by left |]. rewrite H. clear E H.
  apply searchStage_phases in Es
    as [-> | (first & w2 & E1 & [[Hlen ->] | (Hlen & second & w3 & E2 & ->)])];
    [by left | |]; right; exists kw, first, w2; (split; [done |]);
    (split; [done |]).
  - by left.
  - right. split; [done |]. exists second, w3. split; [done |].
    split; [by apply merge_keeps_first |].
    split; [rewrite mergePois_spec; apply mergeSpec_length |].
    rewrite merge_keeps_first by done.
    apply merged_names_distinct, new_names_kept.
Qed.

(** ** The outer catch *)


End UseCase.

(** ** The parser *)

(** The regular-expression literals of parseQuery are well formed. *)
Lemma regex_literals_parse :
  parse (lit "从([^，,]+)出发") = POk re_departure
  /\ parse (lit "(?:我想去|去|在|到|玩)([^玩天日出发，,]+?)(?:玩|旅游|一日游|两日游|三日游|出发)")
     = POk re_city_prefixed
  /\ parse (lit "([^今明后出发，,]+?)(?:一日游|两日游|三日游)") = POk re_city_trip
  /\ parse (lit "从[^，,]+出发") = POk re_strip_departure
  /\ parse (lit "，从[^，,]+出发") = POk re_strip_comma_departure
  /\ parse (lit "我想去") = POk re_strip_want.
Proof. repeat split; by vm_compute. Qed.

Lemma starts_with_spec (s p : jsstring) :
  starts_with s p = true <-> exists b, s = p ++ b.
Proof.
  revert s. induction p as [|x p IH]; intros s; simpl.
  - split; [intros _; by exists s | by destruct s].
  - destruct s as [|c s]; simpl; [split; [done | by intros [b ?]] |].
    rewrite andb_true_iff, N.eqb_eq, IH. split.
    + intros [-> [b ->]]. by exists b.
    + intros [b [= -> ->]]. split; [done | by exists b].
Qed.

Lemma includes_cons c (s p : jsstring) :
  includes (c :: s) p = starts_with (c :: s) p || includes s p.
Proof. done. Qed.

Lemma includes_spec (s p : jsstring) : includes s p = true <-> contains s p.
Proof.
  unfold contains. induction s as [|c s IH].
  - destruct p as [|x p]; simpl.
    + split; [intros _; by exists [], [] | done].
    + split; [done | intros (a & b & E)].
      apply (f_equal length) in E. rewrite !length_app in E. simpl in E. lia.
  - rewrite includes_cons, orb_true_iff, starts_with_spec, IH. split.
    + intros [[b E] | (a & b & E)]; [by exists [], b |].
      exists (c :: a), b. by rewrite E.
    + intros ([|x a] & b & E); [left; by exists b |].
      right. injection E as -> ->. by exists a, b.
Qed.

Lemma contains_length (s p : jsstring) :
  contains s p -> (length p <= length s)%nat.
Proof. intros (a & b & ->). rewrite !length_app. lia. Qed.

Lemma containsAny_cons s p ps :
  containsAny s (p :: ps) <-> includes s p = true \/ containsAny s ps.
Proof. unfold containsAny. by rewrite Exists_cons, includes_spec. Qed.

Lemma containsAny_nil s : containsAny s [] <-> False.
Proof. unfold containsAny. by rewrite Exists_nil. Qed.

Lemma containsAny_three s a b c :
  containsAny s [a; b; c]
  <-> includes s a || includes s b || includes s c = true.
Proof.
  rewrite !containsAny_cons, containsAny_nil, !orb_true_iff. tauto.
Qed.

Lemma containsAny_two s a b :
  containsAny s [a; b] <-> includes s a || includes s b = true.
Proof.
  rewrite !containsAny_cons, containsAny_nil, !orb_true_iff. tauto.
Qed.

Lemma genericFallback_long s :
  (2 <= length s)%nat -> genericFallback s = s.
Proof.
  intros H. unfold genericFallback. destruct s as [|x [|y s]]; simpl in *; try lia.
  done.
Qed.

Lemma genericFallback_short s :
  (length s < 2)%nat -> genericFallback s = genericKeywords.
Proof.
  intros H. unfold genericFallback. destruct s as [|x [|y s]]; simpl in *; try lia; done.
Qed.

Lemma includes_short s p :
  (length s < length p)%nat -> includes s p = false.
Proof.
  intros H. destruct (includes s p) eqn:E; [| done].
  apply includes_spec, contains_length in E. lia.
Qed.

(** C8: the keywords parseQuery returns are the normalization of the
    residual keyword text after the generic fallback, with this priority:
    a residual text that contains '吃什么', '餐厅' or '美食' gives
    '餐厅 美食'; otherwise one that contains '玩什么', '景点' or '旅游'
    gives '景点 旅游'; otherwise one that contains '咖啡' or '咖啡店' gives
    '咖啡店'.  The query '吃什么好' yields '餐厅 美食'. *)
Theorem keyword_normalization_priority
    (cfg : AppConfig) (q : jsstring) (d : option jsstring) (r : ParsedQuery) :
  parseQuery cfg q d = Returned r ->
  (exists c k,
      extractCity cfg q d = Returned (c, k)
      /\ pq_city r = c
      /\ keywords r = normalizeKeywords (genericFallback (cleanKeywords k))
      /\ (containsAny (cleanKeywords k) [lit "吃什么"; lit "餐厅"; lit "美食"] ->
          keywords r = lit "餐厅 美食")
      /\ (~ containsAny (cleanKeywords k) [lit "吃什么"; lit "餐厅"; lit "美食"] ->
          containsAny (cleanKeywords k) [lit "玩什么"; lit "景点"; lit "旅游"] ->
          keywords r = lit "景点 旅游")
      /\ (~ containsAny (cleanKeywords k) [lit "吃什么"; lit "餐厅"; lit "美食"] ->
          ~ containsAny (cleanKeywords k) [lit "玩什么"; lit "景点"; lit "旅游"] ->
          containsAny (cleanKeywords k) [lit "咖啡"; lit "咖啡店"] ->
          keywords r = lit "咖啡店")
      /\ ((length (cleanKeywords k) < 2)%nat -> keywords r = lit "景点 旅游"))
  /\ (forall cfg' d', exists c,
        parseQuery cfg' (lit "吃什么好") d'
        = Returned (mkParsed (lit "餐厅 美食") c)).
Proof.
  intros E. split.
  - unfold parseQuery in E.
    destruct (extractCity cfg q d) as [[c k]|e|]; simpl in E; try done.
    injection E as <-. exists c, k. simpl.
    split; [done |]. split; [done |]. split; [done |].
    set (res := cleanKeywords k).
    rewrite !containsAny_three, containsAny_two.
    destruct (Nat.ltb (length res) 2) eqn:Hlen.
    + apply Nat.ltb_lt in Hlen. rewrite (genericFallback_short _ Hlen).
      assert (Hs : forall p, (2 <= length p)%nat -> includes res p = false)
        by (intros p Hp; apply includes_short; lia).
      rewrite !Hs by (vm_compute; lia).
      repeat split; intros; done.
    + apply Nat.ltb_ge in Hlen. rewrite (genericFallback_long _ Hlen).
      unfold normalizeKeywords.
      destruct (includes res (lit "吃什么") || includes res (lit "餐厅")
                || includes res (lit "美食")),
        (includes res (lit "玩什么") || includes res (lit "景点")
         || includes res (lit "旅游")),
        (includes res (lit "咖啡") || includes res (lit "咖啡店"));
        repeat split; intros; try done; lia.
  - intros cfg' d'. unfold parseQuery, extractCity.
    destruct (truthy d'); simpl; by eexists.
Qed.

Lemma acceptCandidate_differs c d : acceptCandidate c d = true -> c <> d.
Proof.
  unfold acceptCandidate. rewrite !andb_true_iff, negb_true_iff.
  intros [[[_ H] _] _]. by apply str_eqb_neq.
Qed.

Lemma cityLoop_city pats q d st c k :
  cityLoop pats q d st = Returned (c, k) ->
  c = st.1 \/ acceptCandidate c d = true.
Proof.
  induction pats as [|pat pats IH]; simpl.
  - intros [= ->]. by left.
  - destruct (str_match pat q) as [m|]; [| exact IH].
    destruct (truthy (group m 1)); [| exact IH].
    destruct (acceptCandidate (trim _) d) eqn:Hacc; [| exact IH].
    destruct (RegExp_new _); simpl; try done.
    intros [= <- <-]. by right.
Qed.

(** C7: the query '我想去上海玩,从北京出发' parsed without a default
    city gives the city '上海', which is not the departure city '北京' of
    its '从 X 出发' phrase.  In general a candidate equal to the departure
    city fails the guard, so the city parseQuery returns is the default
    city or differs from the departure city. *)
Theorem departure_not_destination (cfg : AppConfig) :
  parseQuery cfg (lit "我想去上海玩,从北京出发") None
  = Returned (mkParsed (lit "景点 旅游") (lit "上海"))
  /\ departureCityOf (lit "我想去上海玩,从北京出发") = Returned (lit "北京")
  /\ lit "上海" <> lit "北京"
  /\ (forall c, acceptCandidate c c = false)
  /\ (forall q d r,
        departureCityOf q = Returned d ->
        parseQuery cfg q None = Returned r ->
        pq_city r = or_str (defaultCity cfg) hardDefaultCity \/ pq_city r <> d).
Proof.
  split; [by vm_compute |]. split; [by vm_compute |]. split; [by vm_compute |].
  split.
  - intros c. destruct (acceptCandidate c c) eqn:E; [| done].
    by apply acceptCandidate_differs in E.
  - intros q d r Hd. unfold parseQuery, extractCity.
    change (negb (truthy None)) with true. cbv iota. rewrite Hd.
    change (or_opt None (defaultCity cfg)) with (defaultCity cfg).
    cbn [obind].
    destruct (cityLoop _ _ _ _) as [[c k]|e|] eqn:E; cbn [obind]; try done.
    intros [= <-]. simpl.
    apply cityLoop_city in E as [-> | E]; [by left | right].
    by apply acceptCandidate_differs.
Qed.

(** ** Runs on concrete inputs *)

Import Examples.

(** C2 fails on the code: for the request with query '我想去上海玩' and no
    destination or city, read alone the query names '上海', yet every
    search is sent for the default city '北京' and the places found are
    those of '北京': getRecommendations hands parseQuery a default city
    that is never empty, so nothing is inferred from the text. *)
Theorem search_city_ignores_query :
  parseQuery liveConfig (lit "我想去上海玩") None
  = Returned (mkParsed (lit "景点 旅游") (lit "上海"))
  /\ exists r w',
      getRecommendations toNumber numberText twins_get unreachable_post
        liveConfig (requestFor "我想去上海玩") []
      = (Returned r, w')
      /\ CallSearchPoi (lit "上海玩|景点|旅游景点") (Some (lit "北京")) ∈ w'
      /\ (forall kw c, CallSearchPoi kw c ∈ w' -> c = Some (lit "北京"))
      /\ Forall (fun p => poi_city p = Some (lit "北京")) (items r).
Proof.
  split; [by vm_compute |]. eexists _, _. split; [by vm_compute |].
  split; [| split].
  - repeat first [apply list_elem_of_here | apply list_elem_of_further].
  - intros kw c H. repeat (apply elem_of_cons in H as [H | H]; [by inv H |]).
    by apply not_elem_of_nil in H.
  - by repeat constructor.
Qed.

(** C3 fails on the code: when the first search finds 51 places, the
    returned items are these 51; and when both searches find the same two
    places of one name, the returned items hold that name twice. *)
Lemma items_may_exceed_cap_and_repeat_names :
  (exists r w',
      getRecommendations toNumber numberText crowded_get unreachable_post
        liveConfig (requestFor "咖啡") []
      = (Returned r, w')
      /\ length (items r) = 51%nat)
  /\ (exists r w',
        getRecommendations toNumber numberText twins_get unreachable_post
          liveConfig (requestFor "咖啡") []
        = (Returned r, w')
        /\ ~ NoDup (name <$> items r)).
Proof.
  split; eexists _, _; (split; [by vm_compute |]); [by vm_compute |].
  intros H. apply NoDup_cons in H as [H _]. apply H, list_elem_of_here.
Qed.

Lemma items_cap_and_distinct_by_phase_witness :
  exists r w',
    getRecommendations toNumber numberText wide_get unreachable_post
      liveConfig (requestFor "咖啡") []
    = (Returned r, w')
    /\ length (items r) = 50%nat
    /\ NoDup (name <$> items r).
Proof.
  eexists _, _. split; [by vm_compute |].
  destruct (items_cap_and_distinct_by_phase
              toNumber numberText wide_get unreachable_post liveConfig
              (requestFor "咖啡") [] _ _ ltac:(by vm_compute))
    as [_ [Hnil | (kw & first & w1 & Epq & E1 & H)]];
    [by vm_compute in Hnil |].
  vm_compute in Epq. injection Epq as <-.
  vm_compute in E1. injection E1 as <- <-.
  destruct H as [[Hlen _] | (_ & second & w2 & E2 & Hi & _ & Hiff)];
    [vm_compute in Hlen; lia |].
  vm_compute in E2. injection E2 as <- <-.
  split; [rewrite Hi; by vm_compute |].
  apply Hiff. split; by apply (bool_decide_unpack _).
Defined.


Lemma empty_places_short_circuit_witness :
  default false (mockMode liveConfig) = false
  /\ (getRecommendations toNumber numberText unreachable_get unreachable_post
        liveConfig (requestFor "咖啡") []).1
     = Returned
         (mkResult (lit "未找到相关地点，请尝试其他关键词或检查网络连接。")
                   [] (Some false) None None)
  /\ (getRecommendations toNumber numberText unreachable_get unreachable_post
        noKeyConfig (requestFor "咖啡") [])
     = (Returned
          (mkResult (lit "未找到相关地点，请尝试其他关键词或检查网络连接。")
                    [] (Some false) None None),
        []).
Proof.
  split; [reflexivity |]. split.
  - destruct (empty_places_short_circuit toNumber numberText unreachable_get
                unreachable_post liveConfig (requestFor "咖啡") [] eq_refl)
      as (H & _ & _).
    edestruct H as [-> _]; [by vm_compute | done].
  - destruct (empty_places_short_circuit toNumber numberText unreachable_get
                unreachable_post noKeyConfig (requestFor "咖啡") [] eq_refl)
      as (H & Hkey & _).
    destruct (Hkey eq_refl) as [c E]. by destruct (H c [] E) as [-> _].
Defined.

Lemma merge_two_phases_witness :
  exists l w',
    searchStage toNumber phased_get liveConfig (lit "咖啡") (lit "北京") []
    = (Returned l, w')
    /\ length l = 6%nat
    /\ name <$> l = [lit "A"; lit "B"; lit "C"; lit "D"; lit "E"; lit "F"].
Proof.
  edestruct (merge_two_phases toNumber phased_get liveConfig
               (lit "咖啡") (lit "北京")) as (E & _ & _ & Hsize);
    [reflexivity | by vm_compute | vm_compute; lia | by vm_compute |].
  eexists _, _. split; [exact E |]. split.
  - by apply Hsize.
  - by vm_compute.
Defined.

Lemma departure_not_destination_witness :
  departureCityOf (lit "从北京出发，去杭州玩") = Returned (lit "北京")
  /\ parseQuery liveConfig (lit "从北京出发，去杭州玩") None
     = Returned (mkParsed (lit "景点 旅游") (lit "杭州"))
  /\ lit "杭州" <> lit "北京".
Proof.
  split; [by vm_compute |]. split; [by vm_compute |].
  destruct (departure_not_destination liveConfig) as (_ & _ & _ & _ & H).
  destruct (H (lit "从北京出发，去杭州玩") (lit "北京")
              (mkParsed (lit "景点 旅游") (lit "杭州")))
    as [E | E]; [by vm_compute | by vm_compute | by vm_compute in E | exact E].
Defined.

Lemma keyword_normalization_priority_witness :
  parseQuery liveConfig (lit "附近有什么好喝的咖啡") (Some (lit "杭州"))
  = Returned (mkParsed (lit "咖啡店") (lit "杭州"))
  /\ containsAny (cleanKeywords (lit "附近有什么好喝的咖啡")) [lit "咖啡"; lit "咖啡店"].
Proof.
  split; [by vm_compute |].
  destruct (keyword_normalization_priority liveConfig
              (lit "附近有什么好喝的咖啡") (Some (lit "杭州"))
              (mkParsed (lit "咖啡店") (lit "杭州")))
    as [(c & k & E & _ & _ & _ & _ & _ & _) _]; [by vm_compute |].
  vm_compute in E. injection E as _ <-.
  apply containsAny_cons. left. by vm_compute.
Defined.


Lemma mock_mode_result_witness :
  mockMode mockConfig = Some true
  /\ getRecommendations toNumber numberText twins_get unreachable_post
       mockConfig (requestFor "上海有什么好玩的") []
     = (Returned
          (mkResult
             (lit "根据您的查询" ++ [34]
              ++ query (requestFor "上海有什么好玩的") ++ [34]
              ++ lit "，暂未找到相关推荐。")
             [] (Some true) None None),
        []).
Proof.
  split; [reflexivity |].
  exact (mock_mode_result toNumber numberText twins_get unreachable_post
           mockConfig (requestFor "上海有什么好玩的") [] eq_refl).
Defined.

(** ** Configuration loading *)

Lemma fold_append_bytes (data acc : list N) :
  Forall (fun b => b < 256) data ->
  fold_left (fun result b => result ++ Config.fromCharCode b) data acc
  = acc ++ data.
Proof.
  intros H. revert acc. induction H as [|b data Hb _ IH]; intros acc; simpl.
  - by rewrite app_nil_r.
  - rewrite IH. unfold Config.fromCharCode.
    rewrite N.mod_small by lia. by rewrite <- app_assoc.
Qed.

Lemma surrogates_length cp : (length (surrogates cp) <= 2)%nat.
Proof. unfold surrogates. destruct (cp <? 65536); simpl; lia. Qed.

Lemma utf16_of_utf8_cons b0 t0 :
  utf16_of_utf8 (b0 :: t0)
  = if b0 <? 128 then b0 :: utf16_of_utf8 t0
    else if b0 <? 224 then
      match t0 with
      | b1 :: t1 => (N.shiftl (N.land b0 31) 6 + cont b1) :: utf16_of_utf8 t1
      | _ => []
      end
    else if b0 <? 240 then
      match t0 with
      | b1 :: b2 :: t2 =>
        (N.shiftl (N.land b0 15) 12 + N.shiftl (cont b1) 6 + cont b2)
          :: utf16_of_utf8 t2
      | _ => []
      end
    else
      match t0 with
      | b1 :: b2 :: b3 :: t3 =>
        surrogates (N.shiftl (N.land b0 7) 18 + N.shiftl (cont b1) 12
                    + N.shiftl (cont b2) 6 + cont b3) ++ utf16_of_utf8 t3
      | _ => []
      end.
Proof. done. Qed.

(** Decoding UTF-8 never yields more code units than there are bytes, and
    fewer as soon as one byte is not ASCII. *)
Lemma utf16_of_utf8_length (n : nat) (bs : list N) :
  (length bs <= n)%nat ->
  (length (utf16_of_utf8 bs) <= length bs)%nat
  /\ (Exists (fun b => 128 <= b) bs ->
      (length (utf16_of_utf8 bs) < length bs)%nat).
Proof.
  revert bs. induction n as [|n IH]; intros bs Hn.
  - destruct bs; simpl in *; [| lia]. split; [done | by intros H; inv H].
  - destruct bs as [|b0 t0]; [split; [done | by intros H; inv H] |].
    rewrite utf16_of_utf8_cons. simpl in Hn.
    destruct (b0 <? 128) eqn:E0.
    { destruct (IH t0 ltac:(lia)) as [Hle Hlt]. simpl. split; [lia |].
      intros H. apply Exists_cons in H as [H | H].
      - apply N.ltb_lt in E0. lia.
      - specialize (Hlt H). lia. }
    destruct (b0 <? 224).
    { destruct t0 as [|b1 t1]; simpl; [split; lia |].
      destruct (IH t1 ltac:(simpl in Hn; lia)) as [Hle _]. split; lia. }
    destruct (b0 <? 240).
    { destruct t0 as [|b1 [|b2 t2]]; simpl; try (split; lia).
      destruct (IH t2 ltac:(simpl in Hn; lia)) as [Hle _]. split; lia. }
    destruct t0 as [|b1 [|b2 [|b3 t3]]]; simpl length; try (split; lia).
    destruct (IH t3 ltac:(simpl in Hn; lia)) as [Hle _].
    rewrite length_app.
    match goal with |- context [surrogates ?cp] =>
      pose proof (surrogates_length cp) end.
    split; lia.
Qed.

Lemma utf16_of_utf8_ascii (bs : list N) :
  Forall (fun b => b < 128) bs -> utf16_of_utf8 bs = bs.
Proof.
  induction 1 as [|b bs Hb _ IH]; [done |].
  rewrite utf16_of_utf8_cons. apply N.ltb_lt in Hb. by rewrite Hb, IH.
Qed.

(** X1: toUtf8String (and the identical uint8ArrayToString) turns each byte
    into one code unit of the same value, so the text has as many code
    units as the file has bytes, and it is the UTF-8 reading of the bytes
    exactly when every byte is ASCII. *)
Theorem toUtf8String_is_bytewise (data : list N) :
  Forall (fun b => b < 256) data ->
  Config.toUtf8String data = data
  /\ (Config.toUtf8String data = utf16_of_utf8 data
      <-> Forall (fun b => b < 128) data).
Proof.
  intros H. unfold Config.toUtf8String.
  rewrite (fold_append_bytes _ _ H). simpl. split; [done |]. split.
  - intros E. apply Forall_forall. intros b Hb.
    destruct (N.lt_ge_cases b 128) as [|Hge]; [done |].
    destruct (utf16_of_utf8_length (length data) data ltac:(lia)) as [_ Hlt].
    assert (Hex : Exists (fun b => 128 <= b) data)
      by (apply Exists_exists; eauto).
    specialize (Hlt Hex). rewrite <- E in Hlt. lia.
  - intros Ha. by rewrite utf16_of_utf8_ascii.
Qed.

Lemma toUtf8String_is_bytewise_witness :
  Forall (fun b => b < 256) (bytes_of "上海")
  /\ Config.toUtf8String (bytes_of "上海") <> lit "上海"
  /\ length (Config.toUtf8String (bytes_of "上海")) = 6%nat.
Proof.
  assert (H : Forall (fun b => b < 256) (bytes_of "上海"))
    by (repeat constructor).
  destruct (toUtf8String_is_bytewise _ H) as [E [Hiff _]].
  split; [exact H |]. split.
  - intros Heq. specialize (Hiff Heq). by inv Hiff.
  - by rewrite E.
Defined.

(** X2: loadConfig puts the application in mock mode exactly when it falls
    back: a configuration read from the file has mockMode false whatever
    the file says (a value, null or nothing) and has the two keys as the
    file has them, and the fallback is DEFAULT_CONFIG with mockMode true,
    carries the message of the error, and lacks the map key. *)
Theorem loadConfig_mode (JSON_parse : jsstring -> JsError + Config.ParsedConfig)
    (raw : JsError + list N) :
  match Config.cr_source (Config.loadConfig JSON_parse raw) with
  | Config.FromFile =>
    mockMode (Config.cr_config (Config.loadConfig JSON_parse raw)) = Some false
    /\ exists byteArray parsed,
        raw = inr byteArray
        /\ JSON_parse (Config.toUtf8String byteArray) = inr parsed
        /\ amapKey (Config.cr_config (Config.loadConfig JSON_parse raw))
           = Config.read (Config.p_amapKey parsed)
        /\ llmApiKey (Config.cr_config (Config.loadConfig JSON_parse raw))
           = Config.read (Config.p_llmApiKey parsed)
  | Config.Fallback =>
    Config.cr_config (Config.loadConfig JSON_parse raw)
    = Config.withMockMode Config.DEFAULT_CONFIG true
    /\ (exists err, Config.cr_message (Config.loadConfig JSON_parse raw)
                    = Some (message err)
                    /\ (raw = inl err
                        \/ exists byteArray,
                            raw = inr byteArray
                            /\ JSON_parse (Config.toUtf8String byteArray) = inl err))
    /\ Config.missingCriticalKeys
         (Config.cr_config (Config.loadConfig JSON_parse raw))
       = Some (lit "缺少高德地图密钥（amapKey）")
  end.
Proof.
  unfold Config.loadConfig. destruct raw as [err | byteArray]; simpl.
  - split; [done |]. split; [| done]. exists err. split; [done | by left].
  - destruct (JSON_parse _) as [err | parsed] eqn:E; simpl.
    + split; [done |]. split; [| done]. exists err. split; [done |].
      right. by exists byteArray.
    + split; [done |]. exists byteArray, parsed.
      split; [done |]. split; [done |]. unfold Config.over, Config.read.
      split; [by destruct (Config.p_amapKey parsed)
             | by destruct (Config.p_llmApiKey parsed)].
Qed.

(** X3: what missingCriticalKeys reports: nothing exactly when both keys
    are non-empty strings; and a configuration without the map key gets
    the map-key message whether or not the model key is there. *)
Theorem missingCriticalKeys_reports (cfg : AppConfig) :
  (Config.missingCriticalKeys cfg = None
   <-> truthy (amapKey cfg) = true /\ truthy (llmApiKey cfg) = true)
  /\ (Config.missingCriticalKeys cfg = Some (lit "缺少高德地图密钥（amapKey）")
      <-> truthy (amapKey cfg) = false)
  /\ (Config.missingCriticalKeys cfg = Some (lit "缺少大模型密钥（llmApiKey）")
      <-> truthy (amapKey cfg) = true /\ truthy (llmApiKey cfg) = false).
Proof.
  unfold Config.missingCriticalKeys.
  assert (Hne : lit "缺少高德地图密钥（amapKey）" <> lit "缺少大模型密钥（llmApiKey）")
    by (by vm_compute).
  generalize dependent (lit "缺少高德地图密钥（amapKey）").
  generalize dependent (lit "缺少大模型密钥（llmApiKey）").
  intros m2 m1 Hne.
  destruct (truthy (amapKey cfg)), (truthy (llmApiKey cfg)); simpl;
    repeat split; intros; try done; try congruence; try tauto;
    by repeat match goal with H : _ /\ _ |- _ => destruct H end.
Qed.

(** ** Query strings *)

Import HttpClient.

Lemma hexDigit_safe n : n < 16 -> uriSafe (hexDigit n) = true.
Proof.
  intros H. unfold uriSafe, uriUnreserved, isAlnum, hexDigit.
  destruct (n <? 10) eqn:E.
  - apply N.ltb_lt in E.
    replace ((48 <=? 48 + n) && (48 + n <=? 57)) with true; [done |].
    symmetry. apply andb_true_iff. split; apply N.leb_le; lia.
  - apply N.ltb_ge in E.
    replace ((65 <=? 55 + n) && (55 + n <=? 90)) with true;
      [by rewrite orb_true_r |].
    symmetry. apply andb_true_iff. split; apply N.leb_le; lia.
Qed.

Lemma percent_safe b : b < 256 -> Forall (fun c => uriSafe c = true) (percent b).
Proof.
  intros H. unfold percent. repeat constructor.
  - apply hexDigit_safe. by apply N.Div0.div_lt_upper_bound.
  - apply hexDigit_safe. by apply N.mod_lt.
Qed.

Lemma utf8_bytes_small cp :
  cp < 1114112 -> Forall (fun b => b < 256) (utf8_bytes cp).
Proof.
  intros H. unfold utf8_bytes.
  assert (Hm : forall x, 128 + x mod 64 < 256)
    by (intros x; pose proof (N.mod_lt x 64); lia).
  destruct (cp <? 128) eqn:E1; [apply N.ltb_lt in E1; repeat constructor; lia |].
  destruct (cp <? 2048) eqn:E2.
  { apply N.ltb_lt in E2. repeat constructor; [| apply Hm].
    assert (cp / 64 < 32) by (by apply N.Div0.div_lt_upper_bound). lia. }
  destruct (cp <? 65536) eqn:E3.
  { apply N.ltb_lt in E3. repeat constructor; try apply Hm.
    assert (cp / 4096 < 16) by (by apply N.Div0.div_lt_upper_bound). lia. }
  repeat constructor; try apply Hm.
  assert (cp / 262144 < 5) by (apply N.Div0.div_lt_upper_bound; lia). lia.
Qed.

Lemma escaped_safe cp :
  cp < 1114112 -> Forall (fun c => uriSafe c = true) (escaped cp).
Proof.
  intros H. unfold escaped.
  induction (utf8_bytes_small cp H) as [|b bs Hb _ IH]; [by constructor |].
  change (flat_map percent (b :: bs)) with (percent b ++ flat_map percent bs).
  apply Forall_app. split; [by apply percent_safe | done].
Qed.

Lemma encodeURIComponent_cons c t :
  encodeURIComponent (c :: t)
  = if uriUnreserved c then
      obind (encodeURIComponent t) (fun r => Returned (c :: r))
    else if (c <? 55296) || (57343 <? c) then
      obind (encodeURIComponent t) (fun r => Returned (escaped c ++ r))
    else if c <? 56320 then
      match t with
      | d :: t' =>
        if (56320 <=? d) && (d <=? 57343) then
          obind (encodeURIComponent t') (fun r =>
            Returned (escaped (65536 + (c - 55296) * 1024 + (d - 56320)) ++ r))
        else Threw uriError
      | [] => Threw uriError
      end
    else Threw uriError.
Proof. done. Qed.

Lemma uriUnreserved_not_surrogate c :
  uriUnreserved c = true -> (c <? 55296) || (57343 <? c) = true.
Proof.
  intros H. apply orb_true_iff. left. apply N.ltb_lt.
  unfold uriUnreserved, isAlnum in H.
  rewrite !orb_true_iff, !andb_true_iff, !N.leb_le in H.
  destruct H as [[[[_ H] | [_ H]] | [_ H]] | H]; try lia.
  apply existsb_exists in H as (x & Hx & ->%N.eqb_eq).
  vm_compute in Hx. repeat (destruct Hx as [<- | Hx]; [lia |]). done.
Qed.

Lemma encodeURIComponent_sound (n : nat) (s : jsstring) :
  (length s <= n)%nat -> codeUnits s ->
  match encodeURIComponent s with
  | Returned r => Forall (fun c => uriSafe c = true) r /\ wellFormed s = true
  | Threw e => e = uriError /\ wellFormed s = false
  | Unmodelled => False
  end.
Proof.
  revert s. induction n as [|n IH]; intros s Hn Hs.
  { destruct s; simpl in *; [done | lia]. }
  destruct s as [|c t]; [done |]. simpl in Hn.
  apply Forall_cons in Hs as [Hc Ht].
  rewrite encodeURIComponent_cons. simpl wellFormed.
  pose proof (IH t ltac:(lia) Ht) as IHt.
  destruct (uriUnreserved c) eqn:Eu.
  { rewrite (uriUnreserved_not_surrogate _ Eu).
    destruct (encodeURIComponent t); simpl; try done.
    destruct IHt. split; [| done]. constructor; [| done].
    unfold uriSafe. by rewrite Eu. }
  destruct ((c <? 55296) || (57343 <? c)) eqn:Eb.
  { destruct (encodeURIComponent t); simpl; try done.
    destruct IHt. split; [| done]. apply Forall_app. split; [| done].
    apply escaped_safe. lia. }
  apply orb_false_iff in Eb as [E1%N.ltb_ge E2%N.ltb_ge].
  destruct (c <? 56320) eqn:E3; [| done]. apply N.ltb_lt in E3.
  destruct t as [|d t']; [done |].
  destruct ((56320 <=? d) && (d <=? 57343)) eqn:Ed; [| done].
  apply andb_true_iff in Ed as [D1%N.leb_le D2%N.leb_le].
  apply Forall_cons in Ht as [_ Ht']. simpl in Hn.
  pose proof (IH t' ltac:(lia) Ht') as IHt'.
  destruct (encodeURIComponent t'); simpl; try done.
  destruct IHt'. split; [| done]. apply Forall_app. split; [| done].
  apply escaped_safe. lia.
Qed.

(** X4: on a string of 16-bit code units encodeURIComponent returns
    exactly when the string has no surrogate outside a pair, and throws a
    URIError otherwise; what it returns holds only unreserved characters
    and percent signs. *)
Theorem encodeURIComponent_safe (s : jsstring) :
  codeUnits s ->
  (wellFormed s = true
   -> exists r, encodeURIComponent s = Returned r
                /\ Forall (fun c => uriSafe c = true) r)
  /\ (wellFormed s = false -> encodeURIComponent s = Threw uriError).
Proof.
  intros Hs. pose proof (encodeURIComponent_sound (length s) s ltac:(lia) Hs) as H.
  destruct (encodeURIComponent s) as [r|e|]; [| | done].
  - destruct H as [H1 H2]. split; [intros _; by exists r | congruence].
  - destruct H as [-> H2]. split; [congruence | done].
Qed.

Lemma encodeURIComponent_safe_witness :
  encodeURIComponent (lit "上海 A&B")
  = Returned (lit "%E4%B8%8A%E6%B5%B7%20A%26B")
  /\ Forall (fun c => uriSafe c = true) (lit "%E4%B8%8A%E6%B5%B7%20A%26B")
  /\ encodeURIComponent [55357] = Threw uriError.
Proof.
  split; [by vm_compute |].
  assert (H1 : codeUnits (lit "上海 A&B")) by (repeat constructor).
  assert (H2 : codeUnits [55357]) by (repeat constructor).
  destruct (encodeURIComponent_safe _ H1) as [Hok _].
  destruct (encodeURIComponent_safe _ H2) as [_ Hbad].
  split; [| by apply Hbad].
  destruct (Hok eq_refl) as (r & E & Hr). vm_compute in E.
  injection E as <-. exact Hr.
Defined.

Section QueryProperties.

Context {JsNumber : Type}.
Variable number_to_string : JsNumber -> jsstring.

Lemma mapOutcome_inv {A B} (f : A -> Outcome B) l bs :
  mapOutcome f l = Returned bs -> Forall2 (fun a b => f a = Returned b) l bs.
Proof.
  revert bs. induction l as [|a l IH]; intros bs; simpl.
  - intros [= <-]. constructor.
  - destruct (f a) as [b| |] eqn:E; simpl; try done.
    destruct (mapOutcome f l) as [bs'| |]; simpl; try done.
    intros [= <-]. constructor; [done | by apply IH].
Qed.

Lemma encodeEntry_safe (entry : jsstring * ParamValue) part :
  codeUnits entry.1 -> codeUnits (valueText number_to_string entry.2) ->
  encodeEntry number_to_string entry = Returned part ->
  Forall (fun c => querySafe c = true) part /\ part <> [].
Proof.
  intros Hk Hv. unfold encodeEntry.
  pose proof (encodeURIComponent_sound _ _ (Nat.le_refl _) Hk) as H1.
  pose proof (encodeURIComponent_sound _ _ (Nat.le_refl _) Hv) as H2.
  destruct (encodeURIComponent entry.1) as [k| |]; cbn [obind]; try done.
  destruct (encodeURIComponent (valueText _ _)) as [v| |]; cbn [obind];
    try done.
  intros [= <-]. destruct H1 as [H1 _], H2 as [H2 _]. split.
  - rewrite Forall_app. split; [| constructor; [by vm_compute |]].
    + eapply Forall_impl; [exact H1 |]. intros c Hc. unfold querySafe.
      by rewrite Hc.
    + eapply Forall_impl; [exact H2 |]. intros c Hc. unfold querySafe.
      by rewrite Hc.
  - by destruct k.
Qed.

Lemma join_safe parts :
  Forall (fun p => Forall (fun c => querySafe c = true) p /\ p <> []) parts ->
  Forall (fun c => querySafe c = true) (join (lit "&") parts)
  /\ (parts <> [] -> join (lit "&") parts <> []).
Proof.
  induction 1 as [|p parts [Hp Hne] _ [IH1 IH2]]; [by split |].
  destruct parts as [|p' parts]; [by split |].
  change (join (lit "&") (p :: p' :: parts))
    with (p ++ lit "&" ++ join (lit "&") (p' :: parts)).
  split; [| by destruct p].
  rewrite !Forall_app. split; [done |]. split; [| done].
  by repeat constructor.
Qed.

Lemma kept_false (e : jsstring * @ParamValue JsNumber) :
  kept e = false
  <-> e.2 = PUndefined \/ e.2 = PNull \/ e.2 = PString [].
Proof.
  unfold kept. destruct e.2 as [[|c t]|n| |]; split; intros H; try done;
    try (by left); try (by right; left); try (by right; right);
    by destruct H as [H | [H | H]].
Qed.

Lemma filter_kept_nil (entries : list (jsstring * @ParamValue JsNumber)) :
  List.filter kept entries = []
  <-> Forall (fun e => e.2 = PUndefined \/ e.2 = PNull \/ e.2 = PString [])
             entries.
Proof.
  induction entries as [|e es IH]; [by split |]. simpl.
  destruct (kept e) eqn:E.
  - split; [done |]. intros [He _]%Forall_cons.
    apply kept_false in He. congruence.
  - rewrite IH. split.
    + intros H. constructor; [by apply kept_false | done].
    + by intros [_ H]%Forall_cons.
Qed.

Lemma filter_kept_all (entries : list (jsstring * @ParamValue JsNumber)) :
  Forall (fun e => ~ (e.2 = PUndefined \/ e.2 = PNull \/ e.2 = PString []))
         entries ->
  List.filter kept entries = entries.
Proof.
  induction 1 as [|e es He _ IH]; [done |]. simpl.
  destruct (kept e) eqn:E; [by rewrite IH |]. by apply kept_false in E.
Qed.

(** How often [=] occurs. *)
Lemma equals_safe r :
  Forall (fun c => uriSafe c = true) r -> List.filter (N.eqb 61) r = [].
Proof.
  induction 1 as [|c r Hc _ IH]; [done |]. cbn [List.filter].
  destruct (61 =? c) eqn:E; [| done].
  apply N.eqb_eq in E. subst c. by vm_compute in Hc.
Qed.

Lemma encodeEntry_equals (entry : jsstring * ParamValue) part :
  codeUnits entry.1 -> codeUnits (valueText number_to_string entry.2) ->
  encodeEntry number_to_string entry = Returned part ->
  length (List.filter (N.eqb 61) part) = 1%nat.
Proof.
  intros Hk Hv. unfold encodeEntry.
  pose proof (encodeURIComponent_sound _ _ (Nat.le_refl _) Hk) as H1.
  pose proof (encodeURIComponent_sound _ _ (Nat.le_refl _) Hv) as H2.
  destruct (encodeURIComponent entry.1) as [k| |]; cbn [obind]; try done.
  destruct (encodeURIComponent (valueText _ _)) as [v| |]; cbn [obind];
    try done.
  intros [= <-]. destruct H1 as [H1 _], H2 as [H2 _].
  rewrite List.filter_app, (equals_safe _ H1).
  change (lit "=" ++ v) with (61 :: v). cbn [List.filter app].
  change (61 =? 61) with true. cbv iota. by rewrite (equals_safe _ H2).
Qed.

Lemma join_equals parts :
  Forall (fun p => length (List.filter (N.eqb 61) p) = 1%nat) parts ->
  length (List.filter (N.eqb 61) (join (lit "&") parts)) = length parts.
Proof.
  induction 1 as [|p parts Hp _ IH]; [done |].
  destruct parts as [|p' parts]; [done |].
  change (join (lit "&") (p :: p' :: parts))
    with (p ++ 38 :: join (lit "&") (p' :: parts)).
  rewrite List.filter_app, length_app, Hp. cbn [List.filter].
  change (61 =? 38) with false. cbv iota. by rewrite IH.
Qed.

(** X5: buildQuery drops the parameters that are undefined, null or the
    empty string, and only those: the result is empty exactly when every
    parameter is one of these, taking such a parameter out of the record
    changes nothing, and a record without any gives one [key=value] pair
    for each of its parameters.  A result that is not empty is a question
    mark followed only by unreserved characters, percent signs and the
    separators [=] and [&]: no space and no character outside ASCII
    reaches the URL. *)
Theorem buildQuery_safe (entries : list (jsstring * ParamValue)) (q : jsstring) :
  Forall (fun e => codeUnits e.1
                   /\ codeUnits (valueText number_to_string e.2)) entries ->
  buildQuery number_to_string (Some entries) = Returned q ->
  (q = []
   <-> Forall (fun e => e.2 = PUndefined \/ e.2 = PNull \/ e.2 = PString [])
              entries)
  /\ (forall l1 e l2,
        entries = l1 ++ e :: l2 ->
        e.2 = PUndefined \/ e.2 = PNull \/ e.2 = PString [] ->
        buildQuery number_to_string (Some (l1 ++ l2)) = Returned q)
  /\ (Forall (fun e => ~ (e.2 = PUndefined \/ e.2 = PNull \/ e.2 = PString []))
             entries ->
      length (List.filter (N.eqb 61) q) = length entries)
  /\ (q <> [] ->
      exists body, q = 63 :: body /\ Forall (fun c => querySafe c = true) body).
Proof.
  intros Hcu Hq.
  assert (Hdrop : forall l1 e l2,
             entries = l1 ++ e :: l2 ->
             e.2 = PUndefined \/ e.2 = PNull \/ e.2 = PString [] ->
             buildQuery number_to_string (Some (l1 ++ l2)) = Returned q).
  { intros l1 e l2 -> He%kept_false. rewrite <- Hq. unfold buildQuery.
    rewrite !List.filter_app. simpl. by rewrite He. }
  revert Hq. unfold buildQuery.
  destruct (mapOutcome _ _) as [parts| |] eqn:E; simpl; try done.
  apply mapOutcome_inv in E.
  assert (Hk : Forall (fun e => codeUnits e.1
                    /\ codeUnits (valueText number_to_string e.2))
                 (List.filter kept entries)).
  { apply Forall_forall. intros e He.
    apply list_elem_of_In, filter_In in He as [He _].
    apply list_elem_of_In in He. revert e He. by apply Forall_forall. }
  assert (Hparts : Forall (fun p => Forall (fun c => querySafe c = true) p
                                    /\ p <> []) parts).
  { clear Hcu Hdrop. induction E as [|e part es ps He _ IH]; [constructor |].
    apply Forall_cons in Hk as [[Hk1 Hk2] Hk]. constructor; [| by apply IH].
    by apply (encodeEntry_safe e). }
  assert (Hpairs : Forall (fun p => length (List.filter (N.eqb 61) p) = 1%nat)
                          parts).
  { clear Hcu Hdrop Hparts.
    induction E as [|e part es ps He _ IH]; [constructor |].
    apply Forall_cons in Hk as [[Hk1 Hk2] Hk]. constructor; [| by apply IH].
    by apply (encodeEntry_equals e). }
  destruct (join_safe _ Hparts) as [Hsafe Hne].
  pose proof (join_equals _ Hpairs) as Hcount.
  pose proof (Forall2_length _ _ _ E) as Hlen.
  intros [= <-]. rewrite <- filter_kept_nil.
  destruct (join (lit "&") parts) as [|c body] eqn:Ej; simpl.
  - split; [| split; [done | split; [| done]]].
    + split; [intros _ | done].
      destruct parts as [|p parts]; [by inv E |]. by destruct Hne.
    + intros Hall. rewrite (filter_kept_all _ Hall) in Hlen.
      exact (eq_trans Hcount (eq_sym Hlen)).
  - split; [| split; [done | split]].
    + split; [done |]. intros Hf. rewrite Hf in E. by inv E.
    + intros Hall. rewrite (filter_kept_all _ Hall) in Hlen.
      exact (eq_trans Hcount (eq_sym Hlen)).
    + intros _. by exists (c :: body).
Qed.

End QueryProperties.

Lemma buildQuery_safe_witness :
  buildQuery (JsNumber := N) (fun _ => lit "50")
    (Some [(lit "keywords", PString (lit "咖啡 店"));
           (lit "city", PString []);
           (lit "offset", PNumber 50);
           (lit "page", PUndefined)])
  = Returned (lit "?keywords=%E5%92%96%E5%95%A1%20%E5%BA%97&offset=50")
  /\ buildQuery (JsNumber := N) (fun _ => lit "50")
       (Some [(lit "keywords", PString (lit "咖啡 店"));
              (lit "offset", PNumber 50);
              (lit "page", PUndefined)])
     = Returned (lit "?keywords=%E5%92%96%E5%95%A1%20%E5%BA%97&offset=50")
  /\ Forall (fun c => querySafe c = true)
            (lit "keywords=%E5%92%96%E5%95%A1%20%E5%BA%97&offset=50").
Proof.
  split; [by vm_compute |].
  edestruct (buildQuery_safe (JsNumber := N) (fun _ => lit "50")
               [(lit "keywords", PString (lit "咖啡 店"));
                (lit "city", PString []);
                (lit "offset", PNumber 50);
                (lit "page", PUndefined)]) as (_ & Hdrop & _ & H);
    [by repeat constructor | by vm_compute |].
  split.
  - apply (Hdrop [(lit "keywords", PString (lit "咖啡 店"))]
                 (lit "city", PString [])
                 [(lit "offset", PNumber 50); (lit "page", PUndefined)]);
      [reflexivity | by right; right].
  - destruct H as (body & E & Hb); [done |]. vm_compute in E.
    injection E as <-. exact Hb.
Defined.

(** ** Bounds on what parseQuery returns *)

Lemma normalized_length (k : jsstring) :
  (2 <= length (normalizeKeywords (genericFallback k)))%nat.
Proof.
  assert (Hg : (2 <= length (genericFallback k))%nat).
  { destruct (Nat.ltb (length k) 2) eqn:E.
    - apply Nat.ltb_lt in E. rewrite (genericFallback_short _ E).
      vm_compute. lia.
    - apply Nat.ltb_ge in E. by rewrite (genericFallback_long _ E). }
  unfold normalizeKeywords.
  destruct (_ || _); [vm_compute; lia |].
  destruct (_ || _); [vm_compute; lia |].
  destruct (_ || _); [vm_compute; lia | done].
Qed.

Lemma acceptCandidate_bounds c d :
  acceptCandidate c d = true ->
  (length c <= 4)%nat
  /\ includes c (lit "出发") = false /\ includes c (lit "从") = false.
Proof.
  unfold acceptCandidate. rewrite !andb_true_iff, !negb_true_iff.
  intros [[[H1 _] H2] H3]. by apply Nat.leb_le in H1.
Qed.

(** X15: with a non-empty default city parseQuery never throws and never
    reads a city from the text: it returns that city as it is, and the
    keywords it returns have at least two code units and depend neither on
    the city nor on the configuration. *)
Theorem parseQuery_with_city (cfg : AppConfig) (q t : jsstring) :
  truthy (Some t) = true ->
  exists kw,
    parseQuery cfg q (Some t) = Returned (mkParsed kw t)
    /\ (2 <= length kw)%nat
    /\ forall cfg' t', truthy (Some t') = true ->
         parseQuery cfg' q (Some t') = Returned (mkParsed kw t').
Proof.
  intros Ht. eexists. split; [by apply parseQuery_with_default |].
  split; [apply normalized_length |].
  intros cfg' t' Ht'. by apply parseQuery_with_default.
Qed.

Lemma parseQuery_with_city_witness :
  truthy (Some (lit "杭州")) = true
  /\ parseQuery Examples.liveConfig (lit "我想去上海玩，吃什么好") (Some (lit "杭州"))
     = Returned (mkParsed (lit "餐厅 美食") (lit "杭州")).
Proof.
  split; [reflexivity |].
  destruct (parseQuery_with_city Examples.liveConfig
              (lit "我想去上海玩，吃什么好") (lit "杭州") eq_refl) as (kw & E & _).
  rewrite E. by vm_compute.
Defined.

(** X16: whatever parseQuery returns, the keywords have at least two code
    units; and without a default city, the city is the configured default
    (else '北京') or a text of at most four code units that
    holds neither '出发' nor '从'. *)
Theorem parseQuery_bounds (cfg : AppConfig) (q : jsstring)
    (d : option jsstring) (r : ParsedQuery) :
  parseQuery cfg q d = Returned r ->
  (2 <= length (keywords r))%nat
  /\ (truthy d = false ->
      pq_city r = or_str (defaultCity cfg) (lit "北京")
      \/ ((length (pq_city r) <= 4)%nat
          /\ includes (pq_city r) (lit "出发") = false
          /\ includes (pq_city r) (lit "从") = false)).
Proof.
  unfold parseQuery.
  destruct (extractCity cfg q d) as [[c k]|e|] eqn:E; cbn [obind]; try done.
  intros [= <-]. cbn [keywords pq_city]. split; [apply normalized_length |].
  intros Hd. unfold extractCity in E. rewrite Hd in E. cbn [negb] in E.
  cbv iota in E.
  destruct (departureCityOf q) as [dep|e|]; cbn [obind] in E; try done.
  apply cityLoop_city in E as [-> | E]; [left | right].
  - cbn [fst]. unfold or_opt. by rewrite Hd.
  - by apply acceptCandidate_bounds in E.
Qed.

Lemma parseQuery_bounds_witness :
  parseQuery Examples.liveConfig (lit "在西湖边玩") None
  = Returned (mkParsed (lit "景点 旅游") (lit "西湖边"))
  /\ (length (lit "西湖边") <= 4)%nat.
Proof.
  split; [by vm_compute |].
  destruct (parseQuery_bounds Examples.liveConfig (lit "在西湖边玩") None
              (mkParsed (lit "景点 旅游") (lit "西湖边")))
    as [_ [H | [H _]]]; [by vm_compute | reflexivity | | exact H].
  by vm_compute in H.
Defined.

(** ** parseQuery with and without a default city *)




(** ** A loaded configuration at work *)

Import MoreExamples.

Section Loaded.

Context {JsNumber : Type}.
Variable Number : jsstring -> JsNumber.
Variable number_to_string : JsNumber -> jsstring.
Variable httpGet :
  @Trace JsNumber -> jsstring -> list (string * jsstring) -> N
  -> JsError + AmapResponse.
Variable httpPost :
  @Trace JsNumber -> jsstring -> LlmChatRequest -> list (string * jsstring) -> N
  -> JsError + LlmChatResponse.
Variable JSON_parse : jsstring -> JsError + Config.ParsedConfig.

(** X17: every request of a run is sent with the configured network
    timeout when that is set and not 0, the chat request included.  For a
    configuration loaded from a file: when the file has no networkTimeout
    key the default 12000 of DEFAULT_CONFIG is there, so that the chat
    request too goes out with 12000, not with the 60000 of the model
    service; when the file has the key with null or 0, the map requests go
    out with 12000 and the chat request with 60000. *)
Theorem configured_timeout_everywhere (cfg : AppConfig) (n : N)
    (request : RecommendationRequest) (w w' : Trace)
    (o : Outcome RecommendationResult) :
  networkTimeout cfg = Some n -> n <> 0 ->
  getRecommendations Number number_to_string httpGet httpPost cfg request w
  = (o, w') ->
  (exists added,
      w' = added ++ w
      /\ Forall (fun e => match e with
                          | HttpGet _ _ t | HttpPost _ _ _ t => t = n
                          | _ => True
                          end) added)
  /\ (forall byteArray parsed request' v o' v',
        JSON_parse (Config.toUtf8String byteArray) = inr parsed ->
        getRecommendations Number number_to_string httpGet httpPost
          (Config.cr_config (Config.loadConfig JSON_parse (inr byteArray)))
          request' v
        = (o', v') ->
        exists added,
          v' = added ++ v
          /\ Forall (fun e =>
                       match e with
                       | HttpGet _ _ t =>
                         t = match Config.p_networkTimeout parsed with
                             | Config.Absent | Config.Null
                             | Config.Present 0 => 12000
                             | Config.Present m => m
                             end
                       | HttpPost _ _ _ t =>
                         t = match Config.p_networkTimeout parsed with
                             | Config.Absent => 12000
                             | Config.Null | Config.Present 0 => 60000
                             | Config.Present m => m
                             end
                       | _ => True
                       end) added).
Proof.
  intros Hn Hn0 E. split.
  - destruct (getRecommendations_timeouts Number number_to_string httpGet
                httpPost cfg request _ _ _ E) as (added & -> & H).
    exists added. split; [done |]. eapply Forall_impl; [exact H |].
    intros e. unfold timeoutsAre, timeout_or. rewrite Hn.
    destruct e; try done; by destruct n.
  - intros byteArray parsed request' v o' v' Ep E'.
    destruct (getRecommendations_timeouts Number number_to_string httpGet
                httpPost _ request' _ _ _ E') as (added & -> & H).
    exists added. split; [done |]. eapply Forall_impl; [exact H |].
    intros e. unfold timeoutsAre, timeout_or, Config.loadConfig.
    rewrite Ep. cbn [Config.cr_config Config.withMockMode networkTimeout
                     Config.spread Config.DEFAULT_CONFIG Config.over].
    destruct e; try done;
      by destruct (Config.p_networkTimeout parsed) as [| |[|m]].
Qed.

(** X18: when loadConfig falls back, getRecommendations with the
    configuration it gives contacts no service and returns the fixed
    sentence with no items and fromMock true; when it reads the file,
    every result has fromMock false. *)
Theorem loaded_config_decides_mode (raw : JsError + list N)
    (request : RecommendationRequest) (w : Trace) :
  match Config.cr_source (Config.loadConfig JSON_parse raw) with
  | Config.Fallback =>
    getRecommendations Number number_to_string httpGet httpPost
      (Config.cr_config (Config.loadConfig JSON_parse raw)) request w
    = (Returned
         (mkResult
            (lit "根据您的查询" ++ [34] ++ query request ++ [34]
             ++ lit "，暂未找到相关推荐。")
            [] (Some true) None None),
       w)
  | Config.FromFile =>
    forall r w',
      getRecommendations Number number_to_string httpGet httpPost
        (Config.cr_config (Config.loadConfig JSON_parse raw)) request w
      = (Returned r, w') ->
      fromMock r = Some false
  end.
Proof.
  unfold Config.loadConfig.
  destruct raw as [err | byteArray]; cbn [Config.cr_source Config.fallbackResult].
  - by apply getRecommendations_in_mock.
  - destruct (JSON_parse _) as [err | parsed];
      cbn [Config.cr_source Config.fallbackResult].
    + by apply getRecommendations_in_mock.
    + intros r w' E.
      by destruct (result_facts _ _ _ _ _ _ _ _ _ E) as (_ & -> & _).
Qed.

End Loaded.

Lemma configured_timeout_everywhere_witness :
  (exists o w',
      getRecommendations Examples.toNumber Examples.numberText
        Examples.twins_get timeout_post
        (Config.cr_config
           (Config.loadConfig (fun _ => inr keysOnlyFile) (inr [])))
        (Examples.requestFor "咖啡") []
      = (o, w')
      /\ Forall (fun e => match e with
                          | HttpGet _ _ t | HttpPost _ _ _ t => t = 12000
                          | _ => True
                          end) w')
  /\ (exists o w' url body hs,
        getRecommendations Examples.toNumber Examples.numberText
          Examples.twins_get timeout_post
          (Config.cr_config
             (Config.loadConfig (fun _ => inr nullTimeoutFile) (inr [])))
          (Examples.requestFor "咖啡") []
        = (o, HttpPost url body hs 60000 :: w')
        /\ Forall (fun e => match e with
                            | HttpGet _ _ t => t = 12000
                            | HttpPost _ _ _ t => t = 60000
                            | _ => True
                            end) (HttpPost url body hs 60000 :: w')).
Proof.
  edestruct (configured_timeout_everywhere Examples.toNumber
               Examples.numberText Examples.twins_get timeout_post
               (fun _ => inr nullTimeoutFile)
               (Config.cr_config
                  (Config.loadConfig (fun _ => inr keysOnlyFile) (inr [])))
               12000 (Examples.requestFor "咖啡") [])
    as [(added & E & H) Hfile]; [reflexivity | done | by vm_compute | ].
  split.
  - eexists _, _. split; [by vm_compute |].
    rewrite app_nil_r in E. by rewrite E.
  - eexists _, _, _, _, _. split; [by vm_compute |].
    edestruct (Hfile [] nullTimeoutFile (Examples.requestFor "咖啡") [])
      as (added' & E' & H'); [reflexivity | by vm_compute |].
    rewrite app_nil_r in E'. rewrite E'. exact H'.
Defined.

(** ** Further runs on concrete inputs *)

Lemma weatherStage_lookups_witness :
  geocodesTo (JsNumber := N) geocoded_get Examples.liveConfig (lit "110000")
  /\ adcodeLookups
       (weatherStage (JsNumber := N) geocoded_get Examples.liveConfig
          (lit "北京") []).2
     = 1%nat
  /\ adcodeLookups
       (weatherStage (JsNumber := N) Examples.unreachable_get
          Examples.liveConfig (lit "北京") []).2
     = 3%nat.
Proof.
  assert (Hgeo : geocodesTo (JsNumber := N) geocoded_get Examples.liveConfig
                   (lit "110000"))
    by (intros w0 ps t; by eexists _, _, _).
  split; [exact Hgeo |]. split.
  - destruct (weatherStage_lookups (JsNumber := N) geocoded_get
                Examples.liveConfig (lit "北京") [] eq_refl eq_refl eq_refl)
      as [H _].
    by destruct (H (lit "110000") eq_refl Hgeo) as (v & _ & ->).
  - destruct (weatherStage_lookups (JsNumber := N) Examples.unreachable_get
                Examples.liveConfig (lit "北京") [] eq_refl eq_refl eq_refl)
      as [_ H].
    by destruct (H (fun _ _ _ => I)) as (v & _ & ->).
Defined.

Lemma searchPoi_outcomes_witness :
  (searchPoi Examples.toNumber Examples.twins_get Examples.noKeyConfig
     (lit "咖啡") None []).1
  = Threw (mkError (lit "高德地图密钥未配置"))
  /\ exists ps w',
      searchPoi Examples.toNumber Examples.twins_get Examples.liveConfig
        (lit "咖啡") None []
      = (Returned ps, w')
      /\ name <$> ps = [lit "A"; lit "A"]
      /\ Forall (fun p => poi_city p = Some (lit "北京")) ps.
Proof.
  split.
  - destruct (searchPoi_outcomes Examples.toNumber Examples.twins_get
                Examples.noKeyConfig (lit "咖啡") None []) as [H _].
    by rewrite (H eq_refl).
  - destruct (searchPoi_outcomes Examples.toNumber Examples.twins_get
                Examples.liveConfig (lit "咖啡") None []) as [_ H].
    destruct (H eq_refl) as (params & o & E & _ & _ & Ho).
    destruct o as [ps|e|]; [| by vm_compute in E | done].
    destruct Ho as (r & Er & _ & Hn & Hc). injection Er as <-.
    by eexists _, _.
Defined.

Lemma geocode_outcomes_witness :
  (geocode (JsNumber := N) geocoded_get Examples.noKeyConfig (lit "天安门")
     None []).1
  = Threw (mkError (lit "高德地图密钥未配置"))
  /\ (geocode (JsNumber := N) geocoded_get Examples.liveConfig (lit "天安门")
        None []).1
     = Returned (Some (lit "116.4,39.9", lit "北京市"))
  /\ (geocode (JsNumber := N) Examples.unreachable_get Examples.liveConfig
        (lit "天安门") None []).1
     = Returned None.
Proof.
  split; [| split].
  - destruct (geocode_outcomes (JsNumber := N) geocoded_get
                Examples.noKeyConfig (lit "天安门") None []) as [H _].
    destruct (H eq_refl) as [-> _]. reflexivity.
  - destruct (geocode_outcomes (JsNumber := N) geocoded_get
                Examples.liveConfig (lit "天安门") None []) as [_ H].
    destruct (H eq_refl) as (params & v & -> & _ & Hv).
    by rewrite (Hv _ _ _ eq_refl eq_refl eq_refl).
  - destruct (geocode_outcomes (JsNumber := N) Examples.unreachable_get
                Examples.liveConfig (lit "天安门") None []) as [_ H].
    destruct (H eq_refl) as (params & v & -> & Hv & _).
    by rewrite (Hv I).
Defined.

Lemma generateRecommendation_outcomes_witness :
  (generateRecommendation (JsNumber := N) Examples.numberText answering_post
     Examples.liveConfig (lit "咖啡") [] None []).1
  = Threw (mkError (lit "大模型密钥未配置"))
  /\ exists text w',
      generateRecommendation (JsNumber := N) Examples.numberText
        answering_post bothKeysConfig (lit "咖啡") [] None []
      = (Returned text, w')
      /\ text <> [].
Proof.
  split.
  - destruct (generateRecommendation_outcomes (JsNumber := N)
                Examples.numberText answering_post Examples.liveConfig
                (lit "咖啡") [] None []) as [H _].
    by rewrite (H eq_refl).
  - destruct (generateRecommendation_outcomes (JsNumber := N)
                Examples.numberText answering_post bothKeysConfig
                (lit "咖啡") [] None []) as [_ H].
    destruct (H eq_refl) as (url & body & hs & o & sys & usr & E & _ & _ & _ & _ & Ho).
    destruct o as [text|e|]; [| by vm_compute in E | done].
    by eexists _, _.
Defined.


Lemma generateDefaultSummary_shape_witness :
  (5 < length ((fun n => mkPoiItem (JsNumber := N) (lit n) None None None None
                            None None None)
                 <$> ["A"; "B"; "C"; "D"; "E"; "F"; "G"]%string))%nat
  /\ exists pre,
      generateDefaultSummary Examples.numberText
        ((fun n => mkPoiItem (JsNumber := N) (lit n) None None None None
                     None None None)
           <$> ["A"; "B"; "C"; "D"; "E"; "F"; "G"]%string)
        (lit "咖啡")
      = pre ++ lit "还有" ++ nat_to_string 2 ++ lit "个结果未显示。".
Proof.
  assert (H : (5 < length ((fun n => mkPoiItem (JsNumber := N) (lit n) None
                                       None None None None None None)
                 <$> ["A"; "B"; "C"; "D"; "E"; "F"; "G"]%string))%nat)
    by (vm_compute; lia).
  split; [exact H |].
  match type of H with
  | (_ < length ?l)%nat =>
    destruct (generateDefaultSummary_shape Examples.numberText l (lit "咖啡"))
      as (_ & _ & Hmore & _)
  end.
  exact (Hmore H).
Defined.

Lemma search_city_precedence_witness :
  exists c ps w1,
    placesStep Examples.toNumber Examples.twins_get Examples.liveConfig
      (mkRequest (lit "我想去上海玩") (Some (lit "广州")) None None
                 (Some (lit "杭州")) None) []
    = (Returned (c, ps), w1)
    /\ c = lit "杭州"
    /\ Forall (searchesIn c) w1.
Proof.
  eexists _, _, _. split; [by vm_compute |].
  destruct (search_city_precedence Examples.toNumber Examples.twins_get
              Examples.liveConfig
              (mkRequest (lit "我想去上海玩") (Some (lit "广州")) None None
                         (Some (lit "杭州")) None) [] _ _ _
              ltac:(by vm_compute))
    as (_ & _ & added & Ew & Hs).
  split; [reflexivity |].
  rewrite app_nil_r in Ew. rewrite <- Ew in Hs. exact Hs.
Defined.

Lemma result_invariants_witness :
  exists r w',
    getRecommendations Examples.toNumber Examples.numberText
      Examples.twins_get answering_post bothKeysConfig
      (Examples.requestFor "咖啡") []
    = (Returned r, w')
    /\ summary r <> []
    /\ fromMock r = Some false
    /\ items r <> [].
Proof.
  eexists _, _. split; [by vm_compute |].
  destruct (result_invariants Examples.toNumber Examples.numberText
              Examples.twins_get answering_post bothKeysConfig
              (Examples.requestFor "咖啡") [] _ _ ltac:(by vm_compute))
    as (Hs & Hm & _).
  split; [exact Hs |]. split; [exact Hm |]. by vm_compute.
Defined.
